(** * matplot2tikz: the patch layer ([src/matplot2tikz/_patch.py])

    A shallow embedding of [draw_patch], [draw_patchcollection] and their
    helpers, and the properties of the patch/legend/collection logic.

    Conventions of the embedding.
    - The [data] dict is mutable and shared by every call of a run; it is
      threaded explicitly: a function that receives [data] returns the
      dict it leaves behind.
    - Python floats are IEEE doubles: [float] (primitive floats).
    - A Python value that may be [None] is an [option].
    - The text a function builds by concatenation is kept as the sequence
      of the pieces it concatenates ([Text]); [render] gives the string.
    - [mypath.get_draw_options], [mypath.draw_path], [_get_arrow_style],
      the matplotlib transform methods and Python's [format] are
      collaborators that live outside this module: the fields of
      [Collaborators]. *)

From Stdlib Require Import Floats.
From stdpp Require Import gmap strings list pretty.

Open Scope string_scope.
Open Scope list_scope.

(** ** Text *)

Definition nl : string := String (Ascii.ascii_of_nat 10) EmptyString.

(** The pieces a returned string is concatenated from. [Lit] is literal
    text (a [\draw] line of this module, or text of the Path Emitter);
    the other two are the legend commands of this module. *)
Inductive Piece :=
| Lit (s : string)
| AddLegendImage (opts : string)
| AddLegendEntry (label : string).

Definition Text := list Piece.

Definition render_piece (p : Piece) : string :=
  match p with
  | Lit s => s
  | AddLegendImage opts => "\addlegendimage{" +:+ opts +:+ "}" +:+ nl
  | AddLegendEntry label => "\addlegendentry{" +:+ label +:+ "}" +:+ nl +:+ nl
  end.

Definition render (t : Text) : string :=
  String.concat "" (render_piece <$> t).

(** What [draw_patch] / [draw_patchcollection] return: a [str], or a list
    of [str] ([_draw_rectangle] returns the empty list for a skipped
    rectangle). *)
Inductive Output :=
| OStr (t : Text)
| OList (l : list Text).

Definition output_texts (o : Output) : list Text :=
  match o with
  | OStr t => [t]
  | OList l => l
  end.

(** Labels of the [\addlegendentry] commands in a text, in order. *)
Definition legend_entries (t : Text) : list string :=
  omap (λ p, match p with AddLegendEntry l => Some l | _ => None end) t.

Definition output_legend_entries (o : Output) : list string :=
  concat (legend_entries <$> output_texts o).

(** [a or b] on strings: the empty string is falsy. *)
Definition str_or (a b : Text) : Text :=
  if String.eqb (render a) "" then b else a.

(** ** Exceptions *)

Inductive Exception :=
| TypeError          (* [translate( *off)] with [off = None] *)
| AttributeError     (* [path.transformed] with [path = None] *)
| UnboundLocalError. (* [is_area] read before any loop iteration *)

Inductive Result (A : Type) :=
| Ok (a : A)
| Raise (e : Exception).
Arguments Ok {A} a.
Arguments Raise {A} e.

#[global] Instance Result_ret : MRet Result := λ A a, Ok a.

#[global] Instance Result_bind : MBind Result := λ A B k r,
  match r with
  | Ok a => k a
  | Raise e => Raise e
  end.

(** ** Figure objects *)

Record Legend := { get_texts : list string }.

(** A legend handle; [get_children] lists its child artists (by identity). *)
Record Handle := { get_children : list nat }.

Record Axes := {
  get_legend : option Legend;
  get_legend_handles_labels : list Handle * list string
}.

Record RectangleGeom := {
  get_x : float;
  get_y : float;
  get_width : float;
  get_height : float
}.

Record EllipseGeom := {
  center : float * float;
  width : float;
  height : float;
  angle : float
}.

Record CircleGeom := {
  circle_center : float * float;
  get_radius : float
}.

(** [Circle] is a subclass of [Ellipse]. *)
Inductive EllipseObj :=
| PlainEllipse (e : EllipseGeom)
| Circle (c : CircleGeom).

Section Model.
Context {Color LineStyle Hatch Path Matrix Affine Extra : Type}.

Record ArrowGeom := {
  _posA_posB : option ((float * float) * (float * float));
  _path_original : Path
}.

(** The runtime class of a patch, with the attributes of that class. *)
Inductive PatchClass :=
| FancyArrowPatch (a : ArrowGeom)
| Rectangle (r : RectangleGeom)
| Ellipse (e : EllipseObj)
| OtherPatch (get_path : Path).

Record Patch := {
  patch_id : nat;
  get_label : string;
  axes : Axes;
  get_edgecolor : Color;
  get_facecolor : Color;
  get_linestyle : LineStyle;
  get_linewidth : float;
  get_hatch : Hatch;
  cls : PatchClass
}.

Record Collection := {
  coll_label : string;
  coll_axes : Axes;
  coll_edgecolor : list Color;
  coll_facecolor : list Color;
  coll_linestyle : list LineStyle;
  coll_linewidth : list float;
  coll_transforms : list Matrix;
  coll_offsets : list (float * float);
  coll_paths : list Path
}.

Inductive Artist :=
| APatch (p : Patch)
| ACollection (c : Collection).

Definition artist_label (obj : Artist) : string :=
  match obj with
  | APatch p => get_label p
  | ACollection c => coll_label c
  end.

Definition artist_axes (obj : Artist) : Axes :=
  match obj with
  | APatch p => axes p
  | ACollection c => coll_axes c
  end.

(** [mypath.LineData], as the call sites build it. *)
Record LineData := {
  ld_obj : Artist;
  ld_ec : option Color;
  ld_fc : option Color;
  ld_ls : option LineStyle;
  ld_lw : option float;
  ld_hatch : option Hatch
}.

(** The run context: [data["float format"]], [data["rectangle_legends"]]
    and the keys the collaborators keep for themselves. *)
Record Data := {
  float_format : string;
  rectangle_legends : gset string;
  extra : Extra
}.

Definition add_rectangle_legend (label : string) (data : Data) : Data :=
  {| float_format := float_format data;
     rectangle_legends := {[label]} ∪ rectangle_legends data;
     extra := extra data |}.

Class Collaborators := {
  (** [mypath.get_draw_options(data, line_data)] *)
  get_draw_options : Data → LineData → list string * Data;
  (** [mypath.draw_path(data, path, draw_options=...)]:
      text, effective draw options, is_area *)
  draw_path : Data → option Path → list string →
              (string * list string * bool) * Data;
  (** [_get_arrow_style(obj, data)] *)
  _get_arrow_style : Patch → Data → list string * Data;
  (** [format(x, ff)], what [f"{x:{ff}}"] evaluates *)
  format_float : float → string → string;
  (** [obj.update_scalarmappable()] *)
  update_scalarmappable : Collection → Collection;
  (** [Affine2D(t)], [a.translate(tx, ty)], [path.transformed(a)] *)
  Affine2D : Matrix → Affine;
  translate : Affine → float → float → Affine;
  transformed : Path → Affine → Path
}.

Context {C : Collaborators}.

(** The collaborators leave [data["rectangle_legends"]] alone. *)
Class CollaboratorsFrame : Prop := {
  get_draw_options_frame d ld :
    rectangle_legends (get_draw_options d ld).2 = rectangle_legends d;
  draw_path_frame d p o :
    rectangle_legends (draw_path d p o).2 = rectangle_legends d;
  _get_arrow_style_frame obj d :
    rectangle_legends (_get_arrow_style obj d).2 = rectangle_legends d
}.

(** ** Legend Binder *)

Definition _is_in_legend (obj : Artist) : bool :=
  let label := artist_label obj in
  match get_legend (artist_axes obj) with
  | None => false
  | Some leg => bool_decide (label ∈ get_texts leg)
  end.

Definition _patch_legend (obj : Artist) (draw_options : list string)
    (legend_type : string) : Text :=
  if _is_in_legend obj then
    let do := match draw_options with
              | [] => ""
              | _ => String.concat ", " (legend_type :: draw_options)
              end in
    let label := artist_label obj in
    [AddLegendImage do; AddLegendEntry label]
  else [].

(** ** Shapes *)

Definition axis_cs (ff : string) (x y : float) : string :=
  "(axis cs:" +:+ format_float x ff +:+ "," +:+ format_float y ff +:+ ")".

Definition _draw_polygon (data : Data) (obj : Patch) (get_path : Path)
    (draw_options : list string) : Output * Data :=
  let '((content, _, is_area), data) :=
    draw_path data (Some get_path) draw_options in
  let legend_type := if is_area then "area legend" else "line legend" in
  (OStr (Lit content :: _patch_legend (APatch obj) draw_options legend_type),
   data).

(** Lines 132-135: the label of the legend handle that owns the
    rectangle, when there is exactly one. *)
Definition recovered_label (obj : Patch) : string :=
  let label := get_label obj in
  let '(handles, labels) := get_legend_handles_labels (axes obj) in
  let labels_found :=
    snd <$> filter (λ hl, patch_id obj ∈ get_children hl.1)
                   (zip handles labels) in
  match labels_found with
  | [l] => l
  | _ => label
  end.

Definition rectangle_cont (ff : string) (r : RectangleGeom)
    (draw_options : list string) : string :=
  let left_lower_x := get_x r in
  let left_lower_y := get_y r in
  let do := String.concat "," draw_options in
  let right_upper_x := (left_lower_x + get_width r)%float in
  let right_upper_y := (left_lower_y + get_height r)%float in
  "\draw[" +:+ do +:+ "] " +:+ axis_cs ff left_lower_x left_lower_y +:+
  " rectangle " +:+ axis_cs ff right_upper_x right_upper_y +:+ ";" +:+ nl.

Definition _draw_rectangle (data : Data) (obj : Patch) (r : RectangleGeom)
    (draw_options : list string) : Output * Data :=
  let label := get_label obj in
  if String.eqb label "" then (OList [], data) else
  let label := recovered_label obj in
  let ff := float_format data in
  let cont := [Lit (rectangle_cont ff r draw_options)] in
  if negb (String.eqb label "_nolegend_") &&
     negb (bool_decide (label ∈ rectangle_legends data))
  then
    let data := add_rectangle_legend label data in
    let draw_opts := String.concat "," draw_options in
    (OStr (cont ++ [AddLegendImage ("ybar,ybar legend," +:+ draw_opts)]
                ++ [AddLegendEntry label]), data)
  else (OStr cont, data).

Definition _draw_circle (data : Data) (obj : Patch) (c : CircleGeom)
    (draw_options : list string) : Output * Data :=
  let '(x, y) := circle_center c in
  let ff := float_format data in
  let do := String.concat "," draw_options in
  let content :=
    "\draw[" +:+ do +:+ "] " +:+ axis_cs ff x y +:+ " circle (" +:+
    format_float (get_radius c) ff +:+ ");" +:+ nl in
  (OStr (Lit content :: _patch_legend (APatch obj) draw_options "area legend"),
   data).

Definition rotate_around (ff : string) (e : EllipseGeom) : string :=
  let '(x, y) := center e in
  "rotate around={" +:+ format_float (angle e) ff +:+ ":" +:+
  axis_cs ff x y +:+ "}".

Definition ellipse_cont (ff : string) (e : EllipseGeom)
    (draw_options : list string) : string :=
  let '(x, y) := center e in
  let do := String.concat "," draw_options in
  "\draw[" +:+ do +:+ "] " +:+ axis_cs ff x y +:+ " ellipse (" +:+
  format_float (0.5 * width e)%float ff +:+ " and " +:+
  format_float (0.5 * height e)%float ff +:+ ");" +:+ nl.

Definition _draw_ellipse (data : Data) (obj : Patch) (e : EllipseObj)
    (draw_options : list string) : Output * Data :=
  match e with
  | Circle c => _draw_circle data obj c draw_options
  | PlainEllipse e =>
      let ff := float_format data in
      let draw_options :=
        if negb (angle e =? 0)%float
        then draw_options ++ [rotate_around ff e]
        else draw_options in
      let content := ellipse_cont ff e draw_options in
      (OStr (Lit content ::
             _patch_legend (APatch obj) draw_options "area legend"), data)
  end.

Definition arrow_line (ff : string) (style : list string)
    (pos_a pos_b : float * float) : string :=
  let do := String.concat "," style in
  "\draw[" +:+ do +:+ "] " +:+ axis_cs ff pos_a.1 pos_a.2 +:+ " -- " +:+
  axis_cs ff pos_b.1 pos_b.2 +:+ ";" +:+ nl.

Definition _draw_fancy_arrow (data : Data) (obj : Patch) (a : ArrowGeom)
    (draw_options : list string) : Output * Data :=
  let '(style, data) := _get_arrow_style obj data in
  let ff := float_format data in
  let '(content, data) :=
    match _posA_posB a with
    | Some (pos_a, pos_b) => (arrow_line ff style pos_a pos_b, data)
    | None =>
        let '((content, _, _), data) :=
          draw_path data (Some (_path_original a)) (draw_options ++ style) in
        (content, data)
    end in
  (OStr (Lit content :: _patch_legend (APatch obj) draw_options "line legend"),
   data).

Definition patch_line_data (obj : Patch) (fc : option Color) : LineData :=
  {| ld_obj := APatch obj;
     ld_ec := Some (get_edgecolor obj);
     ld_fc := fc;
     ld_ls := Some (get_linestyle obj);
     ld_lw := Some (get_linewidth obj);
     ld_hatch := Some (get_hatch obj) |}.

Definition draw_patch (data : Data) (obj : Patch) : Output * Data :=
  match cls obj with
  | FancyArrowPatch a =>
      let '(draw_options, data) :=
        get_draw_options data (patch_line_data obj None) in
      _draw_fancy_arrow data obj a draw_options
  | Rectangle r =>
      let '(draw_options, data) :=
        get_draw_options data
          (patch_line_data obj (Some (get_facecolor obj))) in
      _draw_rectangle data obj r draw_options
  | Ellipse e =>
      let '(draw_options, data) :=
        get_draw_options data
          (patch_line_data obj (Some (get_facecolor obj))) in
      _draw_ellipse data obj e draw_options
  | OtherPatch get_path =>
      let '(draw_options, data) :=
        get_draw_options data
          (patch_line_data obj (Some (get_facecolor obj))) in
      _draw_polygon data obj get_path draw_options
  end.

(** ** Collection Batcher *)

(** [seq[i % len(seq)] if len(seq) != 0 else None] *)
Definition modulo_item {A} (s : list (option A)) (i : nat) : option A :=
  if Nat.eqb (length s) 0 then None else mjoin (s !! (i mod length s)).

(** One tuple yielded by [zip_modulo], named after the loop variables
    that unpack it. *)
Record Member := {
  m_path : option Path;
  m_ec : option Color;
  m_fc : option Color;
  m_ls : option LineStyle;
  m_w : option float;
  m_t : option Matrix;
  m_off : option (float * float)
}.

Definition zip_modulo (paths : list (option Path))
    (ecs fcs : list (option Color)) (lss : list (option LineStyle))
    (ws : list (option float)) (ts : list (option Matrix))
    (offs : list (option (float * float))) : list Member :=
  let n := max_list [length paths; length ecs; length fcs; length lss;
                     length ws; length ts; length offs] in
  (λ i, {| m_path := modulo_item paths i;
           m_ec := modulo_item ecs i;
           m_fc := modulo_item fcs i;
           m_ls := modulo_item lss i;
           m_w := modulo_item ws i;
           m_t := modulo_item ts i;
           m_off := modulo_item offs i |}) <$> seq 0 n.

Definition ensure_list {A} (x : list A) : list (option A) :=
  if Nat.eqb (length x) 0 then [None] else Some <$> x.

(** The sequence the [for] loop of [draw_patchcollection] runs over
    ([obj] already updated). *)
Definition collection_members (obj : Collection) : list Member :=
  let ecs := ensure_list (coll_edgecolor obj) in
  let fcs := ensure_list (coll_facecolor obj) in
  let lss := ensure_list (coll_linestyle obj) in
  let ws := ensure_list (coll_linewidth obj) in
  let ts := ensure_list (coll_transforms obj) in
  let offs := Some <$> coll_offsets obj in
  let paths := Some <$> coll_paths obj in
  zip_modulo paths ecs fcs lss ws ts offs.

(** Line 100: the path handed to [mypath.draw_path]. *)
Definition member_path (m : Member) : Result (option Path) :=
  match m_t m with
  | Some t =>
      match m_path m with
      | None => Raise AttributeError
      | Some path =>
          match m_off m with
          | None => Raise TypeError
          | Some (tx, ty) =>
              Ok (Some (transformed path (translate (Affine2D t) tx ty)))
          end
      end
  | None => Ok (m_path m)
  end.

(** The variables the loop leaves behind: [content], the last binding of
    [draw_options] and [is_area] (unbound before the first iteration) and
    [data]. *)
Record LoopState := {
  st_content : list Text;
  st_last : option (list string * bool);
  st_data : Data
}.

(** [mypath.LineData(obj=obj, ec=ec, fc=fc, ls=ls, lw=w)] *)
Definition member_line_data (obj : Collection) (m : Member) : LineData :=
  {| ld_obj := ACollection obj; ld_ec := m_ec m; ld_fc := m_fc m;
     ld_ls := m_ls m; ld_lw := m_w m; ld_hatch := None |}.

Definition collection_step (obj : Collection) (st : LoopState) (m : Member)
    : Result LoopState :=
  let '(draw_options, data) :=
    get_draw_options (st_data st) (member_line_data obj m) in
  path ← member_path m;
  let '((cont, draw_options, is_area), data) :=
    draw_path data path draw_options in
  Ok {| st_content := st_content st ++ [[Lit cont]];
        st_last := Some (draw_options, is_area);
        st_data := data |}.

Fixpoint collection_loop (obj : Collection) (st : LoopState)
    (ms : list Member) : Result LoopState :=
  match ms with
  | [] => Ok st
  | m :: ms => st ← collection_step obj st m; collection_loop obj st ms
  end.

Definition legend_type_of (is_area : bool) : string :=
  if is_area then "area legend" else "line legend".

Definition draw_patchcollection (data : Data) (obj : Collection)
    : Result (Output * Data) :=
  let obj := update_scalarmappable obj in
  st ← collection_loop obj
         {| st_content := []; st_last := None; st_data := data |}
         (collection_members obj);
  '(draw_options, is_area) ←
    match st_last st with
    | Some last => Ok last
    | None => Raise UnboundLocalError
    end;
  let legend_type := legend_type_of is_area in
  let legend :=
    str_or (_patch_legend (ACollection obj) draw_options legend_type)
           [Lit nl] in
  Ok (OList (st_content st ++ [legend]), st_data st).

(** *** The pairing as the spec words it *)

(** Element [i mod length] of an array; the unset placeholder for an
    array of length zero. *)
Definition cyclic {A} (l : list A) (i : nat) : option A :=
  match l with
  | [] => None
  | _ => l !! (i mod length l)
  end.

(** A style array of length zero counts as one (unset) element. *)
Definition style_length {A} (l : list A) : nat :=
  match l with
  | [] => 1
  | _ => length l
  end.

(** The longest among paths, edge colors, face colors, line styles, line
    widths and transforms. *)
Definition longest_without_offsets (obj : Collection) : nat :=
  max_list [length (coll_paths obj); style_length (coll_edgecolor obj);
            style_length (coll_facecolor obj);
            style_length (coll_linestyle obj);
            style_length (coll_linewidth obj);
            style_length (coll_transforms obj)].

(** The longest among those and the offsets. *)
Definition collection_steps (obj : Collection) : nat :=
  longest_without_offsets obj `max` length (coll_offsets obj).

(** The member the spec pairs at step [i]. *)
Definition cyclic_member (obj : Collection) (i : nat) : Member :=
  {| m_path := cyclic (coll_paths obj) i;
     m_ec := cyclic (coll_edgecolor obj) i;
     m_fc := cyclic (coll_facecolor obj) i;
     m_ls := cyclic (coll_linestyle obj) i;
     m_w := cyclic (coll_linewidth obj) i;
     m_t := cyclic (coll_transforms obj) i;
     m_off := cyclic (coll_offsets obj) i |}.

(** ** A conversion run *)

Definition draw_artist (data : Data) (obj : Artist) : Result (Output * Data) :=
  match obj with
  | APatch p => Ok (draw_patch data p)
  | ACollection c => draw_patchcollection data c
  end.

(** Modelled from the spec: the conversion pipeline that calls
    [draw_patch] and [draw_patchcollection] is outside this module.  A run
    converts the artists of a figure one after the other ("top-to-bottom
    as ordinary function calls"), all calls sharing the one [data]. *)
Fixpoint run (data : Data) (objs : list Artist)
    : Result (list Output * Data) :=
  match objs with
  | [] => Ok ([], data)
  | obj :: objs =>
      '(out, data) ← draw_artist data obj;
      '(outs, data) ← run data objs;
      Ok (out :: outs, data)
  end.

(** ** Legend entries of a run *)

Definition is_rectangle (a : Artist) : bool :=
  match a with
  | APatch p => match cls p with Rectangle _ => true | _ => false end
  | ACollection _ => false
  end.

(** The labels of all [\addlegendentry] commands a run has emitted. *)
Definition run_legend_entries (outs : list Output) : list string :=
  concat (output_legend_entries <$> outs).

(** The labels of those emitted for rectangles. *)
Definition rectangle_legend_entries (objs : list Artist)
    (outs : list Output) : list string :=
  concat (zip_with (λ a o, if is_rectangle a then output_legend_entries o
                           else []) objs outs).


(** ** The legend block as the spec words it *)

(** [\addlegendimage{<legend-type>, <comma-joined style directives>}]
    followed by [\addlegendentry{<label>}] and a blank line. *)
Definition legend_block (legend_type : string) (draw_options : list string)
    (label : string) : string :=
  "\addlegendimage{" +:+ legend_type +:+ ", " +:+
  String.concat ", " draw_options +:+ "}" +:+ nl +:+
  "\addlegendentry{" +:+ label +:+ "}" +:+ nl +:+ nl.

(** The same collaborators with another Path Emitter. *)
Definition with_draw_path (emitter : Data → option Path → list string →
                                     (string * list string * bool) * Data)
    : Collaborators :=
  {| get_draw_options := get_draw_options;
     draw_path := emitter;
     _get_arrow_style := _get_arrow_style;
     format_float := format_float;
     update_scalarmappable := update_scalarmappable;
     Affine2D := Affine2D;
     translate := translate;
     transformed := transformed |}.


(** ** What a run is expected to leave behind *)

(** The label a rectangle puts forward for the legend: the recovered
    label of a rectangle that is not skipped, unless it is the
    placeholder. *)
Definition legend_candidate (a : Artist) : option string :=
  match a with
  | APatch p =>
      match cls p with
      | Rectangle _ =>
          if String.eqb (get_label p) "" then None
          else if String.eqb (recovered_label p) "_nolegend_" then None
          else Some (recovered_label p)
      | _ => None
      end
  | ACollection _ => None
  end.

(** The artist as the Legend Binder sees it: a collection has been
    through [update_scalarmappable]. *)
Definition bound_artist (a : Artist) : Artist :=
  match a with
  | APatch p => APatch p
  | ACollection c => ACollection (update_scalarmappable c)
  end.

(** The label the Legend Binder emits for an artist, if any. *)
Definition legend_label (a : Artist) : option string :=
  if _is_in_legend (bound_artist a)
  then Some (artist_label (bound_artist a))
  else None.

(** Literal text, then nothing or one legend image directly followed by
    one legend entry. *)
Fixpoint legend_pair_last (t : Text) : bool :=
  match t with
  | [] => true
  | [AddLegendImage _; AddLegendEntry _] => true
  | Lit _ :: t => legend_pair_last t
  | _ => false
  end.


End Model.

(** * [src/matplot2tikz/tmp.py]

    Standard output is the list of the lines written to it. *)
Module Tmp.

(** [class HelloArgs(TypedDict)] *)
Record HelloArgs := { who : string; n : Z }.

(** [hello(who, n=1)]: the lines it prints.  [print(n, "Hello", who)]
    writes its arguments separated by one space. *)
Definition hello (who : string) (n : option Z) : list string :=
  let n := default 1%Z n in
  foldl (λ stdout _, stdout ++ [pretty n +:+ " " +:+ "Hello" +:+ " " +:+ who])
        [] (seqZ 0 n).

(** [print_hello( **kwargs)] *)
Definition print_hello (kwargs : HelloArgs) : list string :=
  hello (who kwargs) (Some (n kwargs)).

End Tmp.

(** * [tests/helpers.py] *)
Module Helpers.

Definition quote : string := String (Ascii.ascii_of_nat 34) EmptyString.

(** A matplotlib object as [print_tree] looks at it: the name of its
    type, its text when it is an instance of [mpl.text.Text], and its
    children. *)
Inductive MplObject :=
| MkObject (type_name : string) (get_text : option string)
           (get_children : list MplObject).

(** The lines [print_tree(obj, indent)] prints. *)
Fixpoint print_tree (obj : MplObject) (indent : string) : list string :=
  match obj with
  | MkObject type_name get_text get_children =>
      (match get_text with
       | Some text =>
           indent +:+ " " +:+ type_name +:+ " " +:+
           "(" +:+ quote +:+ text +:+ quote +:+ ")"
       | None => indent +:+ " " +:+ type_name
       end)
      :: flat_map (λ child, print_tree child (indent +:+ "  ")) get_children
  end.

(** The number of objects of a tree. *)
Fixpoint tree_size (obj : MplObject) : nat :=
  match obj with
  | MkObject _ _ get_children => S (list_sum (map tree_size get_children))
  end.

Definition starts_with (prefix line : string) : Prop :=
  ∃ rest, line = prefix +:+ rest.

End Helpers.


(** ** A concrete figure backend, for the examples

    Colors, line styles and hatches are their names; a path is its list of
    vertices; a collection transform is the identity matrix and an
    [Affine2D] is the translation it has accumulated.  The extra state of
    the run is the list of colors seen so far (the real Style Resolver
    registers custom colors in [data]). *)
Module Demo.

Definition Path := list (float * float).

(** [format(x, ".8g")] on the numbers the examples use. *)
Definition fmt (x : float) (ff : string) : string :=
  if (x =? 0)%float then "0"
  else if (x =? 0.5)%float then "0.5"
  else if (x =? 1)%float then "1"
  else if (x =? 2)%float then "2"
  else if (x =? 3)%float then "3"
  else if (x =? 4)%float then "4"
  else if (x =? 30)%float then "30"
  else "?".

Definition TData := @Data (list string).
Definition TLineData := @LineData string string string Path unit.
Definition TPatch := @Patch string string string Path.
Definition TCollection := @Collection string string Path unit.
Definition TArtist := @Artist string string string Path unit.

Definition options (d : TData) (ld : TLineData)
    : list string * TData :=
  let draw := match ld_ec ld with Some c => ["draw=" +:+ c] | None => [] end in
  let fill := match ld_fc ld with Some c => ["fill=" +:+ c] | None => [] end in
  (draw ++ fill,
   {| float_format := float_format d;
      rectangle_legends := rectangle_legends d;
      extra := extra d ++ option_list (ld_ec ld) ++ option_list (ld_fc ld) |}).

Definition vertex (ff : string) (v : float * float) : string :=
  " (axis cs:" +:+ fmt v.1 ff +:+ "," +:+ fmt v.2 ff +:+ ")".

(** A path is an area when it returns to its first vertex. *)
Definition is_closed (p : Path) : bool :=
  match p, last p with
  | (x, y) :: _ :: _, Some (x', y') => (x =? x')%float && (y =? y')%float
  | _, _ => false
  end.

Definition emit (d : TData) (p : option Path) (opts : list string)
    : (string * list string * bool) * TData :=
  match p with
  | Some p =>
      ("\path [" +:+ String.concat "," opts +:+ "]" +:+
       String.concat " --" (vertex (float_format d) <$> p) +:+ ";" +:+ nl,
       opts, is_closed p, d)
  | None => ("", opts, false, d)
  end.

Definition arrow_style (obj : TPatch) (d : TData) : list string * TData :=
  (["->"], d).

Definition shift (a : float * float) (tx ty : float) : float * float :=
  ((a.1 + tx)%float, (a.2 + ty)%float).

Definition moved (p : Path) (a : float * float) : Path :=
  (λ v, ((v.1 + a.1)%float, (v.2 + a.2)%float)) <$> p.

Definition collaborators
    : @Collaborators string string string Path unit (float * float)
                     (list string) :=
  {| get_draw_options := options;
     draw_path := emit;
     _get_arrow_style := arrow_style;
     format_float := fmt;
     update_scalarmappable := λ c, c;
     Affine2D := λ _, (0%float, 0%float);
     translate := shift;
     transformed := moved |}.

Definition data0 : TData :=
  {| float_format := ".8g"; rectangle_legends := ∅; extra := [] |}.

Definition no_legend : Axes :=
  {| get_legend := None; get_legend_handles_labels := ([], []) |}.

(** Axes with a legend showing the texts [a] and [b]; the legend handle
    of [a] is a bar container with the rectangles 1 and 2. *)
Definition legend_ab : Axes :=
  {| get_legend := Some {| get_texts := ["a"; "b"] |};
     get_legend_handles_labels :=
       ([ {| get_children := [1; 2] |} ], ["a"]) |}.

Definition patch (id : nat) (label : string) (ax : Axes) (c : PatchClass)
    : TPatch :=
  {| patch_id := id; get_label := label; axes := ax;
     get_edgecolor := "black"; get_facecolor := "blue";
     get_linestyle := "-"; get_linewidth := 1%float; get_hatch := "";
     cls := c |}.

Definition box (x w : float) : RectangleGeom :=
  {| get_x := x; get_y := 0%float; get_width := w; get_height := 2%float |}.

(** The axes background patch: a rectangle whose label is empty. *)
Definition background : TPatch := patch 0 "" no_legend (Rectangle (box 0 4)).

(** Two bars of one bar container, labelled by their container. *)
Definition bar1 : TPatch := patch 1 "_nolegend_" legend_ab (Rectangle (box 0 1)).
Definition bar2 : TPatch := patch 2 "_nolegend_" legend_ab (Rectangle (box 1 1)).

Definition disc (id : nat) (label : string) : TPatch :=
  patch id label legend_ab
    (Ellipse (Circle {| circle_center := (1%float, 2%float);
                        get_radius := 0.5%float |})).

Definition oval (a : float) : TPatch :=
  patch 7 "b" legend_ab
    (Ellipse (PlainEllipse {| center := (1%float, 2%float); width := 4%float;
                              height := 2%float; angle := a |})).

Definition arrow (ends : option ((float * float) * (float * float))) : TPatch :=
  patch 8 "b" legend_ab
    (FancyArrowPatch
       {| _posA_posB := ends;
          _path_original := [(0%float, 0%float); (1%float, 2%float)] |}).

Definition triangle : Path :=
  [(0%float, 0%float); (1%float, 0%float); (0%float, 1%float);
   (0%float, 0%float)].

Definition segment : Path := [(0%float, 0%float); (1%float, 1%float)].

Definition collection (label : string) (paths : list Path)
    (ecs : list string) (ts : list unit) (offs : list (float * float))
    : TCollection :=
  {| coll_label := label; coll_axes := legend_ab;
     coll_edgecolor := ecs; coll_facecolor := []; coll_linestyle := [];
     coll_linewidth := []; coll_transforms := ts; coll_offsets := offs;
     coll_paths := paths |}.

(** A Style Resolver with nothing to say. *)
Definition plain
    : @Collaborators string string string Path unit (float * float)
                     (list string) :=
  {| get_draw_options := λ d _, ([], d);
     draw_path := emit;
     _get_arrow_style := arrow_style;
     format_float := fmt;
     update_scalarmappable := λ c, c;
     Affine2D := λ _, (0%float, 0%float);
     translate := shift;
     transformed := moved |}.

(** One path, three offsets, no transform. *)
Definition scatter : TCollection :=
  collection "a" [triangle] ["red"] []
    [(1%float, 1%float); (2%float, 2%float); (3%float, 3%float)].

(** A closed path followed by an open one. *)
Definition mixed : TCollection :=
  collection "a" [triangle; segment] ["red"] [] [].

(** A transform and no offset. *)
Definition unplaced : TCollection :=
  collection "a" [triangle] ["red"] [tt] [].

(** A transform and an offset for each path. *)
Definition placed : TCollection :=
  collection "a" [triangle; segment] ["red"] [tt]
    [(1%float, 1%float); (2%float, 2%float)].

(** A collection in the legend with no color, style or width of its
    own. *)
Definition colourless : TCollection :=
  collection "a" [segment] [] [] [].

(** A collection whose label is not a text of the legend. *)
Definition unlisted : TCollection :=
  collection "z" [triangle] ["red"] [] [].

(** A closed path in the legend with no color, style or width of its
    own. *)
Definition blank_area : TCollection :=
  collection "a" [triangle] [] [] [].

(** What a run converts between the two bars. *)
Definition between : list TArtist :=
  [APatch (disc 3 "b"); ACollection scatter].

Definition figure : list TArtist :=
  [APatch background; APatch bar1; APatch (disc 3 "b"); APatch bar2;
   ACollection mixed].

Definition two_discs : list TArtist :=
  [APatch (disc 3 "a"); APatch (disc 4 "a")].

(** What the run has produced and left in [data] when it reaches the
    second bar. *)
Definition after_between : list Output * TData :=
  Eval vm_compute in
    match run (C:=collaborators)
            (draw_patch (C:=collaborators) data0 bar1).2 between with
    | Ok r => r
    | Raise _ => ([], data0)
    end.

Definition start : @LoopState (list string) :=
  {| st_content := []; st_last := None; st_data := data0 |}.


(** Two paths with a color, style, width, transform and offset each. *)
Definition aligned : TCollection :=
  {| coll_label := "a"; coll_axes := legend_ab;
     coll_edgecolor := ["red"; "green"]; coll_facecolor := ["blue"; "white"];
     coll_linestyle := ["-"; "--"]; coll_linewidth := [1%float; 2%float];
     coll_transforms := [tt; tt];
     coll_offsets := [(1%float, 1%float); (2%float, 2%float)];
     coll_paths := [triangle; segment] |}.

(** What the conversion of [figure] returns and leaves in [data]. *)
Definition figure_result : list Output * TData :=
  Eval vm_compute in
    match run (C:=collaborators) data0 figure with
    | Ok r => r
    | Raise _ => ([], data0)
    end.

(** A figure with one axes holding a title. *)
Definition tree : Helpers.MplObject :=
  Helpers.MkObject "Figure" None
    [Helpers.MkObject "Rectangle" None [];
     Helpers.MkObject "Axes" None
       [Helpers.MkObject "Text" (Some "Taylor--Green Vortex") []]].


End Demo.

(** * Properties *)

(** The example backend keeps its hands off [rectangle_legends]. *)
Lemma demo_frame : @CollaboratorsFrame _ _ _ _ _ _ _ Demo.collaborators.
Proof.
  split.
  - intros d ld. reflexivity.
  - intros d [p|] o; reflexivity.
  - intros obj d. reflexivity.
Qed.

Section Properties.
Context {Color LineStyle Hatch Path Matrix Affine Extra : Type}.
Context {C : @Collaborators Color LineStyle Hatch Path Matrix Affine Extra}.

Implicit Types (data : @Data Extra) (obj : @Patch Color LineStyle Hatch Path).
Implicit Types (coll : @Collection Color LineStyle Path Matrix).
Implicit Types (opts : list string).
Implicit Types (art : @Artist Color LineStyle Hatch Path Matrix).

(** ** Text *)

Lemma append_assoc (a b c : string) : (a +:+ b) +:+ c = a +:+ b +:+ c.
Proof.
  induction a as [|x a IH]; [reflexivity|].
  change (String x ((a +:+ b) +:+ c) = String x (a +:+ b +:+ c)).
  by f_equal.
Qed.

Lemma append_nil_r (a : string) : a +:+ "" = a.
Proof.
  induction a as [|x a IH]; [reflexivity|].
  change (String x (a +:+ "") = String x a).
  by f_equal.
Qed.

Lemma render_cons (p : Piece) (t : Text) :
  render (p :: t) = render_piece p +:+ render t.
Proof.
  unfold render. destruct t as [|q t].
  - change (render_piece p = render_piece p +:+ ""). by rewrite append_nil_r.
  - reflexivity.
Qed.

Lemma render_legend_pair (o l : string) :
  render [AddLegendImage o; AddLegendEntry l] =
  "\addlegendimage{" +:+ o +:+ "}" +:+ nl +:+
  "\addlegendentry{" +:+ l +:+ "}" +:+ nl +:+ nl.
Proof.
  rewrite !render_cons. unfold render_piece.
  change (render []) with "". rewrite append_nil_r.
  by rewrite !append_assoc.
Qed.

(** ** The legend set of a run only grows *)

Section Frame.
Context `{!CollaboratorsFrame}.

Lemma draw_patch_rectangle data obj r opts d1 :
  cls obj = Rectangle r →
  get_draw_options data (patch_line_data obj (Some (get_facecolor obj)))
    = (opts, d1) →
  draw_patch data obj = _draw_rectangle d1 obj r opts ∧
  rectangle_legends d1 = rectangle_legends data.
Proof.
  intros Hcls Hopts. split.
  - unfold draw_patch. by rewrite Hcls, Hopts.
  - by rewrite <- (get_draw_options_frame data
      (patch_line_data obj (Some (get_facecolor obj)))), Hopts.
Qed.

Lemma _draw_rectangle_legends data obj r opts :
  rectangle_legends data ⊆
  rectangle_legends (_draw_rectangle data obj r opts).2.
Proof.
  unfold _draw_rectangle.
  destruct (String.eqb (get_label obj) ""); [done|].
  destruct (negb _ && negb _); simpl; [apply union_subseteq_r | done].
Qed.

(** Shapes other than rectangles never touch the set. *)
Lemma draw_patch_other_legends data obj :
  (∀ r, cls obj ≠ Rectangle r) →
  rectangle_legends (draw_patch data obj).2 = rectangle_legends data.
Proof.
  intros Hcls. unfold draw_patch.
  destruct (cls obj) as [a|r|e|p] eqn:Hc.
  - pose proof (get_draw_options_frame data (patch_line_data obj None)) as Hf.
    destruct (get_draw_options _ _) as [opts d1]. simpl in Hf.
    unfold _draw_fancy_arrow.
    pose proof (_get_arrow_style_frame obj d1) as Hs.
    destruct (_get_arrow_style _ _) as [style d2]. simpl in Hs.
    destruct (_posA_posB a) as [[pa pb]|]; simpl; [congruence|].
    pose proof (draw_path_frame d2 (Some (_path_original a)) (opts ++ style))
      as Hp.
    destruct (draw_path _ _ _) as [[[content o] ia] d3]. simpl in *.
    congruence.
  - by destruct (Hcls r).
  - pose proof (get_draw_options_frame data
      (patch_line_data obj (Some (get_facecolor obj)))) as Hf.
    destruct (get_draw_options _ _) as [opts d1]. simpl in Hf.
    destruct e as [e|c]; simpl; [done|].
    unfold _draw_circle. by destruct (circle_center c).
  - pose proof (get_draw_options_frame data
      (patch_line_data obj (Some (get_facecolor obj)))) as Hf.
    destruct (get_draw_options _ _) as [opts d1]. simpl in Hf.
    unfold _draw_polygon.
    pose proof (draw_path_frame d1 (Some p) opts) as Hp.
    destruct (draw_path _ _ _) as [[[content o] ia] d3]. simpl in *.
    congruence.
Qed.

Lemma draw_patch_legends data obj :
  rectangle_legends data ⊆ rectangle_legends (draw_patch data obj).2.
Proof.
  destruct (cls obj) as [a|r|e|p] eqn:Hc.
  2: { destruct (get_draw_options data
         (patch_line_data obj (Some (get_facecolor obj)))) as [opts d1] eqn:Ho.
       destruct (draw_patch_rectangle data obj r opts d1 Hc Ho) as [-> <-].
       apply _draw_rectangle_legends. }
  all: rewrite draw_patch_other_legends; [done | congruence].
Qed.

Lemma collection_step_legends coll st m st' :
  collection_step coll st m = Ok st' →
  rectangle_legends (st_data st') = rectangle_legends (st_data st).
Proof.
  unfold collection_step.
  pose proof (get_draw_options_frame (st_data st) (member_line_data coll m))
    as Hf.
  destruct (get_draw_options _ _) as [opts d1]. simpl in Hf.
  destruct (member_path m) as [path|e]; [|done]. simpl.
  pose proof (draw_path_frame d1 path opts) as Hp.
  destruct (draw_path _ _ _) as [[[cont o] ia] d2]. simpl in Hp.
  intros [= <-]. simpl. congruence.
Qed.

Lemma collection_loop_legends coll ms st st' :
  collection_loop coll st ms = Ok st' →
  rectangle_legends (st_data st') = rectangle_legends (st_data st).
Proof.
  revert st. induction ms as [|m ms IH]; intros st; simpl.
  - by intros [= <-].
  - destruct (collection_step coll st m) as [st1|e] eqn:Hstep; [|done].
    simpl. intros Hloop. rewrite (IH _ Hloop).
    by eapply collection_step_legends.
Qed.

Lemma draw_patchcollection_legends data coll out data' :
  draw_patchcollection data coll = Ok (out, data') →
  rectangle_legends data' = rectangle_legends data.
Proof.
  unfold draw_patchcollection.
  destruct (collection_loop _ _ _) as [st|e] eqn:Hloop; [|done]. simpl.
  destruct (st_last st) as [[opts ia]|]; [|done]. simpl.
  intros [= _ <-]. by rewrite (collection_loop_legends _ _ _ _ Hloop).
Qed.

Lemma draw_artist_legends data (a : Artist) out data' :
  draw_artist data a = Ok (out, data') →
  rectangle_legends data ⊆ rectangle_legends data'.
Proof.
  destruct a as [p|c]; simpl.
  - intros [= Hd]. replace data' with (draw_patch data p).2 by (by rewrite Hd).
    apply draw_patch_legends.
  - intros Hc. by rewrite (draw_patchcollection_legends _ _ _ _ Hc).
Qed.

Lemma run_legends (objs : list Artist) data outs data' :
  run data objs = Ok (outs, data') →
  rectangle_legends data ⊆ rectangle_legends data'.
Proof.
  revert data outs. induction objs as [|a objs IH]; intros data outs; simpl.
  - by intros [= _ <-].
  - destruct (draw_artist data a) as [[out d1]|e] eqn:Ha; [|done]. simpl.
    destruct (run d1 objs) as [[outs1 d2]|e] eqn:Hr; [|done]. simpl.
    intros [= _ <-]. etrans; [by eapply draw_artist_legends | by eapply IH].
Qed.

(** ** Rectangles *)

(** C3: a rectangle whose label is the empty string is skipped: the
    result of [draw_patch] is the empty list (no drawing command, no
    legend image, no legend entry) and [rectangle_legends] is as it
    was. *)
Theorem empty_label_rectangle_skipped data obj r :
  cls obj = Rectangle r →
  get_label obj = "" →
  (draw_patch data obj).1 = OList [] ∧
  output_texts (draw_patch data obj).1 = [] ∧
  rectangle_legends (draw_patch data obj).2 = rectangle_legends data.
Proof.
  intros Hcls Hlabel.
  destruct (get_draw_options data
    (patch_line_data obj (Some (get_facecolor obj)))) as [opts d1] eqn:Ho.
  destruct (draw_patch_rectangle data obj r opts d1 Hcls Ho) as [-> <-].
  unfold _draw_rectangle. by rewrite Hlabel.
Qed.

Lemma _draw_rectangle_seen data obj r opts :
  get_label obj ≠ "" →
  recovered_label obj ∈ rectangle_legends data →
  _draw_rectangle data obj r opts =
    (OStr [Lit (rectangle_cont (float_format data) r opts)], data).
Proof.
  intros Hlabel Hin. unfold _draw_rectangle.
  apply String.eqb_neq in Hlabel as ->.
  rewrite (bool_decide_eq_true_2 _ Hin). by rewrite andb_false_r.
Qed.

Lemma _draw_rectangle_new data obj r opts :
  get_label obj ≠ "" →
  recovered_label obj ≠ "_nolegend_" →
  recovered_label obj ∉ rectangle_legends data →
  _draw_rectangle data obj r opts =
    (OStr [Lit (rectangle_cont (float_format data) r opts);
           AddLegendImage ("ybar,ybar legend," +:+ String.concat "," opts);
           AddLegendEntry (recovered_label obj)],
     add_rectangle_legend (recovered_label obj) data).
Proof.
  intros Hlabel Hph Hnew. unfold _draw_rectangle.
  apply String.eqb_neq in Hlabel as ->.
  apply String.eqb_neq in Hph as ->.
  by rewrite (bool_decide_eq_false_2 _ Hnew).
Qed.

(** C1 (amended): a rectangle whose own label is not empty, and whose
    (possibly recovered) label is neither ["_nolegend_"] nor in
    [rectangle_legends], gets its drawing command followed by exactly one
    [\addlegendimage]/[\addlegendentry] pair, and the label enters the
    set; whatever the run converts next, a later rectangle (own label not
    empty) with the same recovered label gets its drawing command and
    nothing else. *)
Theorem rectangle_legend_emitted_once data obj r opts d1
    (objs : list Artist) outs d2 obj' r' opts' d3 :
  cls obj = Rectangle r →
  get_label obj ≠ "" →
  recovered_label obj ≠ "_nolegend_" →
  recovered_label obj ∉ rectangle_legends data →
  get_draw_options data (patch_line_data obj (Some (get_facecolor obj)))
    = (opts, d1) →
  run (draw_patch data obj).2 objs = Ok (outs, d2) →
  cls obj' = Rectangle r' →
  get_label obj' ≠ "" →
  recovered_label obj' = recovered_label obj →
  get_draw_options d2 (patch_line_data obj' (Some (get_facecolor obj')))
    = (opts', d3) →
  draw_patch data obj =
    (OStr [Lit (rectangle_cont (float_format d1) r opts);
           AddLegendImage ("ybar,ybar legend," +:+ String.concat "," opts);
           AddLegendEntry (recovered_label obj)],
     add_rectangle_legend (recovered_label obj) d1) ∧
  rectangle_legends (draw_patch data obj).2 =
    {[recovered_label obj]} ∪ rectangle_legends data ∧
  draw_patch d2 obj' =
    (OStr [Lit (rectangle_cont (float_format d3) r' opts')], d3).
Proof.
  intros Hcls Hlabel Hph Hnew Ho Hrun Hcls' Hlabel' Hsame Ho'.
  destruct (draw_patch_rectangle data obj r opts d1 Hcls Ho) as [Hd Hd1].
  rewrite <- Hd1 in Hnew.
  pose proof (_draw_rectangle_new d1 obj r opts Hlabel Hph Hnew) as Hfirst.
  rewrite <- Hd in Hfirst.
  assert (rectangle_legends (draw_patch data obj).2 =
          {[recovered_label obj]} ∪ rectangle_legends data) as Hset.
  { rewrite Hfirst. simpl. by rewrite Hd1. }
  split_and!; [done..|].
  destruct (draw_patch_rectangle d2 obj' r' opts' d3 Hcls' Ho') as [-> Hd3].
  apply _draw_rectangle_seen; [done|].
  rewrite Hsame, Hd3. apply (run_legends _ _ _ _ Hrun).
  rewrite Hset. by apply elem_of_union_l, elem_of_singleton.
Qed.

(** What one rectangle adds to the legend: nothing, or one label that
    was not in the set and now is. *)
Lemma rectangle_entry_step data obj r :
  cls obj = Rectangle r →
  (output_legend_entries (draw_patch data obj).1 = [] ∧
   rectangle_legends (draw_patch data obj).2 = rectangle_legends data) ∨
  (∃ l, output_legend_entries (draw_patch data obj).1 = [l] ∧
        (l ∉ rectangle_legends data) ∧
        rectangle_legends (draw_patch data obj).2 =
          {[l]} ∪ rectangle_legends data).
Proof.
  intros Hcls.
  destruct (get_draw_options data
    (patch_line_data obj (Some (get_facecolor obj)))) as [opts d1] eqn:Ho.
  destruct (draw_patch_rectangle data obj r opts d1 Hcls Ho) as [-> <-].
  unfold _draw_rectangle.
  destruct (String.eqb (get_label obj) ""); [by left|].
  destruct (String.eqb (recovered_label obj) "_nolegend_"); [by left|].
  destruct (decide (recovered_label obj ∈ rectangle_legends d1)) as [Hin|Hnew].
  - rewrite (bool_decide_eq_true_2 _ Hin). by left.
  - rewrite (bool_decide_eq_false_2 _ Hnew). right. by eexists.
Qed.

Lemma rectangle_legend_entries_run (objs : list Artist) data outs data' :
  run data objs = Ok (outs, data') →
  NoDup (rectangle_legend_entries objs outs) ∧
  ∀ l, l ∈ rectangle_legend_entries objs outs →
       (l ∉ rectangle_legends data) ∧ l ∈ rectangle_legends data'.
Proof.
  revert data outs. induction objs as [|a objs IH]; intros data outs; simpl.
  - intros [= <- _]. split; [constructor|].
    intros l Hl. by apply elem_of_nil in Hl.
  - destruct (draw_artist data a) as [[out d1]|e] eqn:Ha; [|done]. simpl.
    destruct (run d1 objs) as [[outs1 d2]|e] eqn:Hr; [|done]. simpl.
    intros [= <- <-].
    destruct (IH _ _ Hr) as [Hnd Hin].
    pose proof (draw_artist_legends _ _ _ _ Ha) as Hmono.
    assert (∀ l, l ∈ rectangle_legend_entries objs outs1 →
                 (l ∉ rectangle_legends data) ∧ l ∈ rectangle_legends d2)
      as Htail.
    { intros l Hl. destruct (Hin l Hl) as [Hnew Hseen]. split; [|done].
      intros Hold. by apply Hnew, Hmono. }
    unfold rectangle_legend_entries in *. simpl.
    destruct (is_rectangle a) eqn:Hrect; simpl; [|done].
    destruct a as [p|c]; [|done]. simpl in Hrect, Ha.
    destruct (cls p) as [|r| |] eqn:Hcls; try done.
    injection Ha as Ha.
    destruct (rectangle_entry_step data p r Hcls)
      as [[He Hs]|[l [He [Hl Hs]]]];
      rewrite Ha in He, Hs; simpl in He, Hs; rewrite He; simpl; [done|].
    split.
    + constructor; [|done]. intros Hl'. destruct (Hin l Hl') as [Hnew _].
      apply Hnew. rewrite Hs. by apply elem_of_union_l, elem_of_singleton.
    + intros l' [->|Hl']%elem_of_cons; [|by apply Htail].
      split; [done|]. apply (run_legends _ _ _ _ Hr). rewrite Hs.
      by apply elem_of_union_l, elem_of_singleton.
Qed.

(** C8 (amended): within a run, the labels of the [\addlegendentry]
    commands emitted for rectangles are pairwise distinct.  (Entries of
    the other shapes and of collections are not deduplicated.) *)
Theorem rectangle_legend_entries_unique (objs : list Artist) data outs data' :
  run data objs = Ok (outs, data') →
  NoDup (rectangle_legend_entries objs outs).
Proof. intros Hrun. by destruct (rectangle_legend_entries_run _ _ _ _ Hrun). Qed.


End Frame.

(** ** Pairing with wraparound *)

Lemma modulo_item_some {A} (l : list A) i :
  modulo_item (Some <$> l) i = cyclic l i.
Proof.
  unfold modulo_item, cyclic. rewrite length_fmap.
  destruct l as [|a l]; [done|]. cbn [length Nat.eqb].
  rewrite list_lookup_fmap. by destruct (_ !! _).
Qed.

Lemma modulo_item_ensure_list {A} (l : list A) i :
  modulo_item (ensure_list l) i = cyclic l i.
Proof.
  unfold ensure_list. destruct l as [|a l].
  - unfold modulo_item. cbn [length Nat.eqb]. by rewrite Nat.mod_1_r.
  - apply modulo_item_some.
Qed.

Lemma length_ensure_list {A} (l : list A) :
  length (ensure_list l) = style_length l.
Proof.
  unfold ensure_list, style_length. destruct l; [done|].
  cbn [length Nat.eqb]. by rewrite length_fmap.
Qed.

Lemma length_collection_members coll :
  length (collection_members coll) = collection_steps coll.
Proof.
  unfold collection_members, zip_modulo, collection_steps,
    longest_without_offsets.
  rewrite !length_fmap, length_seq, !length_ensure_list.
  simpl. lia.
Qed.

Lemma collection_steps_pos coll : (1 ≤ collection_steps coll)%nat.
Proof.
  unfold collection_steps, longest_without_offsets. simpl.
  assert (1 ≤ style_length (coll_edgecolor coll))%nat; [|lia].
  unfold style_length. destruct (coll_edgecolor coll); simpl; lia.
Qed.

Lemma lookup_collection_members coll i :
  i < collection_steps coll →
  collection_members coll !! i = Some (cyclic_member coll i).
Proof.
  intros Hi. rewrite <- length_collection_members in Hi. revert Hi.
  unfold collection_members, zip_modulo.
  rewrite length_fmap, length_seq. intros Hi.
  rewrite list_lookup_fmap, lookup_seq_lt by done. simpl.
  by rewrite !modulo_item_ensure_list, !modulo_item_some.
Qed.

Lemma collection_members_lookup coll i m :
  collection_members coll !! i = Some m →
  i < collection_steps coll ∧ m = cyclic_member coll i.
Proof.
  intros Hm. pose proof (lookup_lt_Some _ _ _ Hm) as Hi.
  rewrite length_collection_members in Hi. split; [done|].
  rewrite lookup_collection_members in Hm by done. congruence.
Qed.

Lemma cyclic_nil_iff {A} (l : list A) i : cyclic l i = None ↔ l = [].
Proof.
  unfold cyclic. destruct l as [|a l]; [done|]. split; [|done].
  intros Hn%lookup_ge_None. cbn [length] in Hn.
  pose proof (Nat.mod_upper_bound i (S (length l))). lia.
Qed.

(** ** The loop of [draw_patchcollection] *)

Lemma collection_loop_app coll ms1 ms2 st :
  collection_loop coll st (ms1 ++ ms2) =
  st1 ← collection_loop coll st ms1; collection_loop coll st1 ms2.
Proof.
  revert st. induction ms1 as [|m ms1 IH]; intros st; simpl; [done|].
  destruct (collection_step coll st m) as [st1|e]; simpl; [apply IH | done].
Qed.

(** One iteration that does not raise: a block of literal text is
    appended, and [draw_options], [is_area] and [data] are rebound to
    what the Path Emitter returned. *)
Lemma collection_step_ok coll st m st' :
  collection_step coll st m = Ok st' →
  ∃ opts0 d1 path cont opts is_area,
    get_draw_options (st_data st) (member_line_data coll m) = (opts0, d1) ∧
    member_path m = Ok path ∧
    draw_path d1 path opts0 = (cont, opts, is_area, st_data st') ∧
    st_content st' = st_content st ++ [[Lit cont]] ∧
    st_last st' = Some (opts, is_area).
Proof.
  unfold collection_step.
  destruct (get_draw_options _ _) as [opts0 d1].
  destruct (member_path m) as [path|e]; [|done]. simpl.
  destruct (draw_path _ _ _) as [[[cont opts] ia] d2] eqn:Hp.
  intros [= <-]. simpl. by exists opts0, d1, path, cont, opts, ia.
Qed.

Lemma collection_loop_content coll ms st st' :
  collection_loop coll st ms = Ok st' →
  ∃ blocks, st_content st' = st_content st ++ blocks ∧
            length blocks = length ms ∧
            Forall (λ t, ∃ cont, t = [Lit cont]) blocks.
Proof.
  revert st. induction ms as [|m ms IH]; intros st; simpl.
  - intros [= <-]. exists []. by rewrite app_nil_r.
  - destruct (collection_step coll st m) as [st1|e] eqn:Hstep; [|done].
    simpl. intros Hloop.
    destruct (collection_step_ok _ _ _ _ Hstep)
      as (opts0 & d1 & path & cont & opts & ia & _ & _ & _ & Hc & _).
    destruct (IH _ Hloop) as (blocks & Hb & Hlen & Hall).
    exists ([Lit cont] :: blocks). rewrite Hb, Hc, <- app_assoc.
    split_and!; [done | simpl; by rewrite Hlen |].
    constructor; [by exists cont | done].
Qed.


Lemma draw_patchcollection_ok data coll0 out data' :
  let coll := update_scalarmappable coll0 in
  draw_patchcollection data coll0 = Ok (out, data') →
  ∃ st opts is_area,
    collection_loop coll
      {| st_content := []; st_last := None; st_data := data |}
      (collection_members coll) = Ok st ∧
    st_last st = Some (opts, is_area) ∧
    data' = st_data st ∧
    out = OList (st_content st ++
                 [str_or (_patch_legend (ACollection (Hatch:=Hatch) coll) opts
                            (legend_type_of is_area)) [Lit nl]]).
Proof.
  intros coll. unfold draw_patchcollection. fold coll.
  destruct (collection_loop _ _ _) as [st|e]; [|done]. simpl.
  destruct (st_last st) as [[opts ia]|] eqn:Hlast; [|done]. simpl.
  intros [= <- <-]. by exists st, opts, ia.
Qed.

Lemma collection_members_snoc coll :
  ∃ ms m, collection_members coll = ms ++ [m].
Proof.
  pose proof (length_collection_members coll) as Hlen.
  pose proof (collection_steps_pos coll) as Hpos.
  destruct (collection_members coll) as [|m ms] using rev_ind.
  - simpl in Hlen. lia.
  - by exists ms, m.
Qed.

(** C2 (amended): the loop of [draw_patchcollection] runs over as many
    members as the longest among paths, edge colors, face colors, line
    styles, line widths, transforms AND offsets, a style array of length
    zero counting as one element; that is at least one member; member [i]
    holds element [i mod length] of every array and the unset value
    ([None]) for an array of length zero; a collection that is converted
    yields one block per member and one trailing block. *)
Theorem collection_iteration data coll0 :
  let coll := update_scalarmappable coll0 in
  length (collection_members coll) = collection_steps coll ∧
  (1 ≤ collection_steps coll)%nat ∧
  (∀ i, i < collection_steps coll →
        collection_members coll !! i = Some (cyclic_member coll i)) ∧
  (∀ out data',
     draw_patchcollection data coll0 = Ok (out, data') →
     ∃ blocks legend, out = OList (blocks ++ [legend]) ∧
                      length blocks = collection_steps coll).
Proof.
  intros coll. split_and!.
  - apply length_collection_members.
  - apply collection_steps_pos.
  - intros i. apply lookup_collection_members.
  - intros out data' Hd.
    destruct (draw_patchcollection_ok _ _ _ _ Hd)
      as (st & opts & ia & Hloop & _ & _ & ->).
    destruct (collection_loop_content _ _ _ _ Hloop)
      as (blocks & Hb & Hlen & _). simpl in Hb.
    eexists _, _. split; [done|].
    by rewrite Hb, Hlen, length_collection_members.
Qed.

(** A converted collection is its member blocks, all literal text,
    followed by one more block, built from the draw options and the
    area/line verdict that the Path Emitter returned for the last member
    of the loop. *)
Lemma collection_loop_last_member data coll0 out data' :
  let coll := update_scalarmappable coll0 in
  draw_patchcollection data coll0 = Ok (out, data') →
  ∃ ms m st opts0 d1 path cont opts is_area,
    collection_members coll = ms ++ [m] ∧
    collection_loop coll
      {| st_content := []; st_last := None; st_data := data |} ms = Ok st ∧
    length (st_content st) = length ms ∧
    Forall (λ t, ∃ c, t = [Lit c]) (st_content st) ∧
    get_draw_options (st_data st) (member_line_data coll m) = (opts0, d1) ∧
    member_path m = Ok path ∧
    draw_path d1 path opts0 = (cont, opts, is_area, data') ∧
    out = OList (st_content st ++ [[Lit cont]] ++
                 [str_or (_patch_legend (ACollection (Hatch:=Hatch) coll) opts
                            (if is_area then "area legend"
                             else "line legend"))
                         [Lit nl]]).
Proof.
  intros coll Hd.
  destruct (draw_patchcollection_ok _ _ _ _ Hd)
    as (st' & opts & ia & Hloop & Hlast & -> & ->). fold coll in Hloop.
  destruct (collection_members_snoc coll) as (ms & m & Hms).
  rewrite Hms, collection_loop_app in Hloop.
  destruct (collection_loop coll _ ms) as [st|e] eqn:Hpre; [|done].
  simpl in Hloop.
  destruct (collection_step coll st m) as [st1|e] eqn:Hstep; [|done].
  injection Hloop as ->.
  destruct (collection_step_ok _ _ _ _ Hstep)
    as (opts0 & d1 & path & cont & opts' & ia' & Ho & Hp & Hdp & Hc & Hl).
  rewrite Hl in Hlast. injection Hlast as -> ->.
  destruct (collection_loop_content _ _ _ _ Hpre)
    as (blocks & Hb & Hlen & Hall). simpl in Hb.
  exists ms, m, st, opts0, d1, path, cont, opts, ia.
  rewrite Hc, <- app_assoc, Hb. by split_and!.
Qed.


Lemma collection_loop_no_type_error coll ms st :
  Forall (λ m, member_path m ≠ Raise TypeError) ms →
  collection_loop coll st ms ≠ Raise TypeError.
Proof.
  intros Hall. revert st.
  induction Hall as [|m ms Hm _ IH]; intros st; simpl; [done|].
  destruct (collection_step coll st m) as [st1|e] eqn:Hstep; simpl; [done|].
  intros [= ->]. apply Hm. revert Hstep. unfold collection_step.
  destruct (get_draw_options _ _) as [opts0 d1].
  destruct (member_path m) as [path|e]; simpl; [|congruence].
  by destruct (draw_path _ _ _) as [[[??]?]?].
Qed.

(** C10: the offsets are zipped as they are (an empty offsets array
    pairs every member with [None]); a member that has a transform and a
    path unpacks its offset into the translation, which raises on
    [None].  So the conversion never raises that error when the offsets
    are non-empty whenever the transforms are, and it does raise when
    the transforms are non-empty and the offsets are empty. *)
Theorem offset_unpack_precondition data coll0 :
  let coll := update_scalarmappable coll0 in
  (∀ i m, collection_members coll !! i = Some m →
          m_off m = cyclic (coll_offsets coll) i ∧
          (coll_offsets coll = [] → m_off m = None)) ∧
  (∀ m t path, m_t m = Some t → m_path m = Some path →
     member_path m =
       match m_off m with
       | Some (tx, ty) =>
           Ok (Some (transformed path (translate (Affine2D t) tx ty)))
       | None => Raise TypeError
       end) ∧
  ((coll_transforms coll ≠ [] → coll_offsets coll ≠ []) →
   draw_patchcollection data coll0 ≠ Raise TypeError) ∧
  (coll_transforms coll ≠ [] → coll_offsets coll = [] →
   ∃ e, draw_patchcollection data coll0 = Raise e ∧
        (coll_paths coll ≠ [] → e = TypeError)).
Proof.
  intros coll. split_and!.
  - intros i m [_ ->]%collection_members_lookup. split; [done|].
    simpl. by intros ->.
  - intros m t path Ht Hp. unfold member_path. rewrite Ht, Hp.
    by destruct (m_off m) as [[tx ty]|].
  - intros Hpre. unfold draw_patchcollection. fold coll.
    pose proof (collection_loop_no_type_error coll (collection_members coll)
      {| st_content := []; st_last := None; st_data := data |}) as Hloop.
    destruct (collection_loop _ _ _) as [st|e]; simpl.
    + by destruct (st_last st) as [[??]|].
    + intros [= ->]. apply Hloop; [|done].
      apply Forall_lookup. intros i m [_ ->]%collection_members_lookup.
      unfold member_path. simpl.
      destruct (cyclic (coll_transforms coll) i) as [t|] eqn:Ht; [|done].
      destruct (cyclic (coll_paths coll) i); [|done].
      destruct (cyclic (coll_offsets coll) i) as [[tx ty]|] eqn:Ho; [done|].
      apply cyclic_nil_iff in Ho. destruct Hpre; [|done].
      intros Hts. by rewrite Hts in Ht.
  - intros Hts Hoffs.
    pose proof (lookup_collection_members coll 0 (collection_steps_pos coll))
      as Hm.
    destruct (collection_members coll) as [|m ms] eqn:Hms; [done|].
    injection Hm as Hm.
    assert (∃ e, member_path m = Raise e ∧
                 (coll_paths coll ≠ [] → e = TypeError)) as (e & He & Hty).
    { rewrite Hm. unfold member_path. simpl.
      destruct (cyclic (coll_transforms coll) 0) as [t|] eqn:Ht.
      2: { by apply cyclic_nil_iff in Ht. }
      destruct (cyclic (coll_paths coll) 0) as [p|] eqn:Hp.
      - rewrite Hoffs. simpl. by exists TypeError.
      - exists AttributeError. split; [done|].
        by apply cyclic_nil_iff in Hp. }
    exists e. split; [|done].
    unfold draw_patchcollection. fold coll. rewrite Hms. simpl.
    unfold collection_step at 1. simpl.
    destruct (get_draw_options _ _) as [opts0 d1]. by rewrite He.
Qed.


(** ** Legend Binder *)

Lemma concat_cons_cons (sep a b : string) (l : list string) :
  String.concat sep (a :: b :: l) = a +:+ sep +:+ String.concat sep (b :: l).
Proof. reflexivity. Qed.

Lemma concat_snoc (sep a : string) (l : list string) :
  l ≠ [] →
  String.concat sep (l ++ [a]) = String.concat sep l +:+ sep +:+ a.
Proof.
  induction l as [|b l IH]; [done|]. intros _.
  destruct l as [|c l]; [reflexivity|].
  change ((b :: c :: l) ++ [a]) with (b :: (c :: l) ++ [a]).
  change ((c :: l) ++ [a]) with (c :: (l ++ [a])) at 1.
  rewrite concat_cons_cons.
  change (c :: (l ++ [a])) with ((c :: l) ++ [a]).
  rewrite IH by done. rewrite concat_cons_cons.
  by rewrite !append_assoc.
Qed.

Lemma _is_in_legend_spec art :
  _is_in_legend art = true ↔
  ∃ leg, get_legend (artist_axes art) = Some leg ∧
         artist_label art ∈ get_texts leg.
Proof.
  unfold _is_in_legend. destruct (get_legend (artist_axes art)) as [leg|].
  - rewrite bool_decide_eq_true. split.
    + intros Hin. by exists leg.
    + by intros (leg' & [= <-] & Hin).
  - split; [done|]. by intros (leg & Hleg & _).
Qed.

Lemma _patch_legend_emitted art opts legend_type :
  _patch_legend art opts legend_type ≠ [] ↔ _is_in_legend art = true.
Proof. unfold _patch_legend. by destruct (_is_in_legend art). Qed.

Lemma _patch_legend_render art opts legend_type :
  _is_in_legend art = true →
  render (_patch_legend art opts legend_type) =
    match opts with
    | [] => "\addlegendimage{}" +:+ nl +:+
            "\addlegendentry{" +:+ artist_label art +:+ "}" +:+ nl +:+ nl
    | _ => legend_block legend_type opts (artist_label art)
    end.
Proof.
  intros Hin. unfold _patch_legend. rewrite Hin, render_legend_pair.
  destruct opts as [|o opts]; [reflexivity|].
  unfold legend_block. rewrite concat_cons_cons. by rewrite !append_assoc.
Qed.

(** Every shape but the rectangle ends with what the Legend Binder
    returns. *)
Lemma draw_patch_other_output data obj :
  (∀ r, cls obj ≠ Rectangle r) →
  ∃ content opts legend_type,
    (draw_patch data obj).1 =
      OStr (Lit content :: _patch_legend (APatch (Matrix:=Matrix) obj) opts legend_type).
Proof.
  intros Hcls. unfold draw_patch.
  destruct (cls obj) as [a|r|e|p] eqn:Hc.
  - destruct (get_draw_options _ _) as [opts d1]. unfold _draw_fancy_arrow.
    destruct (_get_arrow_style _ _) as [style d2].
    destruct (_posA_posB a) as [[pa pb]|]; simpl; [by eexists _, _, _|].
    destruct (draw_path _ _ _) as [[[content o] ia] d3]. by eexists _, _, _.
  - by destruct (Hcls r).
  - destruct (get_draw_options _ _) as [opts d1].
    destruct e as [e|c]; simpl; [by eexists _, _, _|].
    unfold _draw_circle. destruct (circle_center c). by eexists _, _, _.
  - destruct (get_draw_options _ _) as [opts d1]. unfold _draw_polygon.
    destruct (draw_path _ _ _) as [[[content o] ia] d3]. by eexists _, _, _.
Qed.

(** C7 (amended): a shape that is not a rectangle ends with a legend
    block if and only if its axes have a legend and its label is one of
    the legend's texts (so: nothing without a legend).  The block is
    [\addlegendimage{<legend-type>, <style directives joined by ", ">}],
    [\addlegendentry{<label>}] and a blank line when there is at least one
    style directive; with no style directive it is [\addlegendimage{}],
    without the legend type, and the same entry. *)
Theorem non_rectangle_legend_block data obj :
  (∀ r, cls obj ≠ Rectangle r) →
  ∃ content opts legend_type legend,
    legend = _patch_legend (APatch (Matrix:=Matrix) obj) opts legend_type ∧
    (draw_patch data obj).1 = OStr (Lit content :: legend) ∧
    (legend ≠ [] ↔ ∃ leg, get_legend (axes obj) = Some leg ∧
                          get_label obj ∈ get_texts leg) ∧
    (get_legend (axes obj) = None → legend = []) ∧
    (legend ≠ [] → opts ≠ [] →
     render legend = legend_block legend_type opts (get_label obj)) ∧
    (legend ≠ [] → opts = [] →
     render legend = "\addlegendimage{}" +:+ nl +:+
       "\addlegendentry{" +:+ get_label obj +:+ "}" +:+ nl +:+ nl).
Proof.
  intros Hcls.
  destruct (draw_patch_other_output data obj Hcls)
    as (content & opts & legend_type & Hout).
  exists content, opts, legend_type,
    (_patch_legend (APatch (Matrix:=Matrix) obj) opts legend_type).
  split_and!; [done | done | ..].
  - by rewrite _patch_legend_emitted, _is_in_legend_spec.
  - intros Hnone. unfold _patch_legend, _is_in_legend. simpl.
    by rewrite Hnone.
  - intros Hin Hopts. apply _patch_legend_emitted in Hin.
    rewrite _patch_legend_render by done. by destruct opts.
  - intros Hin ->. apply _patch_legend_emitted in Hin.
    by rewrite _patch_legend_render.
Qed.

(** ** Ellipses *)

(** C6 (amended): an ellipse that is not a circle and whose angle equals
    0 is drawn with the Style Resolver's options and no rotation
    directive; with a non-zero angle the directive
    [rotate around={angle:(axis cs:x,y)}] is appended to those options,
    so it comes LAST in the option list of [\draw] (and of the legend
    image). *)
Theorem ellipse_rotation data obj e opts d1 :
  cls obj = Ellipse (PlainEllipse e) →
  get_draw_options data (patch_line_data obj (Some (get_facecolor obj)))
    = (opts, d1) →
  let ff := float_format d1 in
  let rot := "rotate around={" +:+ format_float (angle e) ff +:+ ":" +:+
             axis_cs ff (center e).1 (center e).2 +:+ "}" in
  ((angle e =? 0)%float = true →
   draw_patch data obj =
     (OStr (Lit (ellipse_cont ff e opts) ::
            _patch_legend (APatch (Matrix:=Matrix) obj) opts "area legend"), d1)) ∧
  ((angle e =? 0)%float = false →
   draw_patch data obj =
     (OStr (Lit (ellipse_cont ff e (opts ++ [rot])) ::
            _patch_legend (APatch (Matrix:=Matrix) obj) (opts ++ [rot]) "area legend"), d1)) ∧
  (opts ≠ [] →
   String.concat "," (opts ++ [rot]) =
     String.concat "," opts +:+ "," +:+ rot).
Proof.
  intros Hcls Ho ff rot.
  assert (rotate_around ff e = rot) as Hrot.
  { unfold rotate_around, rot. by destruct (center e). }
  unfold draw_patch. rewrite Hcls, Ho. unfold _draw_ellipse. fold ff.
  split_and!.
  - by intros ->.
  - intros ->. simpl. by rewrite Hrot.
  - apply concat_snoc.
Qed.

(** ** Arrows *)

(** C9: an arrow with an endpoint pair is one straight [\draw] line
    between the two points with the arrow-style directives, and the
    result is the same whatever the Path Emitter is (it is not called);
    an arrow without the pair is the Path Emitter's text for the arrow's
    original path, with the draw options followed by the arrow style.
    Both end with the Legend Binder's block for ["line legend"]. *)
Theorem arrow_line_or_path data obj a opts d1 style d2 :
  cls obj = FancyArrowPatch a →
  get_draw_options data (patch_line_data obj None) = (opts, d1) →
  _get_arrow_style obj d1 = (style, d2) →
  (∀ pos_a pos_b, _posA_posB a = Some (pos_a, pos_b) →
     draw_patch data obj =
       (OStr (Lit (arrow_line (float_format d2) style pos_a pos_b) ::
              _patch_legend (APatch (Matrix:=Matrix) obj) opts "line legend"), d2) ∧
     ∀ emitter,
       draw_patch (C:=with_draw_path emitter) data obj =
       draw_patch data obj) ∧
  (_posA_posB a = None →
   ∀ content o is_area d3,
     draw_path d2 (Some (_path_original a)) (opts ++ style)
       = (content, o, is_area, d3) →
     draw_patch data obj =
       (OStr (Lit content :: _patch_legend (APatch (Matrix:=Matrix) obj) opts "line legend"),
        d3)).
Proof.
  intros Hcls Ho Hs. split.
  - intros pos_a pos_b Hends. split.
    + unfold draw_patch, _draw_fancy_arrow. by rewrite Hcls, Ho, Hs, Hends.
    + intros emitter. unfold draw_patch, _draw_fancy_arrow. rewrite Hcls.
      simpl. rewrite Ho, Hs, Hends. reflexivity.
  - intros Hends content o ia d3 Hp.
    unfold draw_patch, _draw_fancy_arrow.
    by rewrite Hcls, Ho, Hs, Hends, Hp.
Qed.


(** * Further properties of the patch layer *)

Section RunInvariants.
Context `{!CollaboratorsFrame}.

Lemma _draw_rectangle_candidate data obj r opts :
  cls obj = Rectangle r →
  rectangle_legends (_draw_rectangle data obj r opts).2 =
  rectangle_legends data ∪
  list_to_set (option_list (legend_candidate (APatch (Matrix:=Matrix) obj))).
Proof.
  intros Hcls. unfold _draw_rectangle, legend_candidate. rewrite Hcls.
  destruct (String.eqb (get_label obj) ""); simpl.
  { by rewrite union_empty_r_L. }
  destruct (String.eqb (recovered_label obj) "_nolegend_"); simpl.
  { by rewrite union_empty_r_L. }
  rewrite union_empty_r_L.
  destruct (decide (recovered_label obj ∈ rectangle_legends data))
    as [Hin|Hnew].
  - rewrite (bool_decide_eq_true_2 _ Hin). simpl.
    apply set_eq. intros x. rewrite elem_of_union, elem_of_singleton.
    split; [by left|]. by intros [?| ->].
  - rewrite (bool_decide_eq_false_2 _ Hnew). simpl.
    by rewrite (comm_L (∪)).
Qed.

Lemma draw_artist_candidate data (a : Artist) out data' :
  draw_artist data a = Ok (out, data') →
  rectangle_legends data' =
  rectangle_legends data ∪ list_to_set (option_list (legend_candidate a)).
Proof.
  destruct a as [p|c]; simpl.
  - intros [= Hd]. replace data' with (draw_patch data p).2 by (by rewrite Hd).
    destruct (cls p) as [a|r|e|g] eqn:Hcls.
    2: { destruct (get_draw_options data
           (patch_line_data p (Some (get_facecolor p)))) as [opts d1] eqn:Ho.
         destruct (draw_patch_rectangle data p r opts d1 Hcls Ho) as [-> <-].
         rewrite (_draw_rectangle_candidate d1 p r opts Hcls).
         unfold legend_candidate. by rewrite Hcls. }
    all: rewrite draw_patch_other_legends by congruence; simpl;
      by rewrite union_empty_r_L.
  - intros Hc. rewrite (draw_patchcollection_legends _ _ _ _ Hc). simpl.
    by rewrite union_empty_r_L.
Qed.

(** X1: after a run, [rectangle_legends] is what it was before plus the
    recovered labels of the rectangles of the run that are not skipped
    and not placeholder-labelled; nothing else gets in, nothing gets
    out. *)
Theorem run_rectangle_legends (objs : list Artist) data outs data' :
  run data objs = Ok (outs, data') →
  rectangle_legends data' =
  rectangle_legends data ∪ list_to_set (omap legend_candidate objs).
Proof.
  revert data outs. induction objs as [|a objs IH]; intros data outs; simpl.
  - intros [= _ <-]. by rewrite union_empty_r_L.
  - destruct (draw_artist data a) as [[out d1]|e] eqn:Ha; [|done]. simpl.
    destruct (run d1 objs) as [[outs1 d2]|e] eqn:Hr; [|done]. simpl.
    intros [= _ <-].
    rewrite (IH _ _ Hr), (draw_artist_candidate _ _ _ _ Ha).
    rewrite <- (assoc_L (∪)). f_equal.
    destruct (legend_candidate a); simpl;
      by rewrite ?union_empty_r_L, ?union_empty_l_L.
Qed.

(** X2: the labels of the legend entries a run emits for rectangles are
    exactly the labels the run adds to [rectangle_legends]. *)
Theorem rectangle_entries_are_new_labels (objs : list Artist)
    data outs data' l :
  run data objs = Ok (outs, data') →
  l ∈ rectangle_legend_entries objs outs ↔
  l ∈ rectangle_legends data' ∧ l ∉ rectangle_legends data.
Proof.
  intros Hrun. split.
  { intros Hl.
    destruct (rectangle_legend_entries_run _ _ _ _ Hrun) as [_ Hin].
    by destruct (Hin l Hl). }
  revert data outs Hrun.
  induction objs as [|a objs IH]; intros data outs; simpl.
  - intros [= _ <-] [Hin Hout]. done.
  - destruct (draw_artist data a) as [[out d1]|e] eqn:Ha; [|done]. simpl.
    destruct (run d1 objs) as [[outs1 d2]|e] eqn:Hr; [|done]. simpl.
    intros [= <- <-] [Hin Hout].
    unfold rectangle_legend_entries. simpl. apply elem_of_app.
    destruct (decide (l ∈ rectangle_legends d1)) as [Hmid|Hmid].
    2: { right. by apply (IH d1 outs1 Hr). }
    left. destruct a as [p|c]; simpl in *.
    2: { rewrite (draw_patchcollection_legends _ _ _ _ Ha) in Hmid. done. }
    injection Ha as Ha.
    destruct (cls p) as [g|r|e|g] eqn:Hcls.
    2: { destruct (rectangle_entry_step data p r Hcls)
           as [[He Hs]|[l' [He [Hl Hs]]]];
           rewrite Ha in He, Hs; simpl in He, Hs.
         - by rewrite Hs in Hmid.
         - rewrite He. rewrite Hs in Hmid.
           apply elem_of_union in Hmid as [Hmid|Hmid]; [|done].
           apply elem_of_singleton in Hmid as ->. by left. }
    all: exfalso; apply Hout;
      rewrite <- (draw_patch_other_legends data p) by congruence;
      by rewrite Ha.
Qed.

(** X3: only rectangles write to [rectangle_legends]: converting an
    arrow, an ellipse, a circle, another patch or a collection leaves
    the set as it was. *)
Theorem only_rectangles_write_legends data (a : Artist) out data' :
  is_rectangle a = false →
  draw_artist data a = Ok (out, data') →
  rectangle_legends data' = rectangle_legends data.
Proof.
  intros Hrect Ha. rewrite (draw_artist_candidate _ _ _ _ Ha).
  destruct a as [p|c]; simpl in *; [|by rewrite union_empty_r_L].
  destruct (cls p); try done; simpl; by rewrite union_empty_r_L.
Qed.

(** X4: once a rectangle has been converted, converting it again at any
    later point of the run emits no legend entry. *)
Theorem rectangle_redrawn_without_legend data obj r
    (objs : list Artist) outs d2 :
  cls obj = Rectangle r →
  run (draw_patch data obj).2 objs = Ok (outs, d2) →
  output_legend_entries (draw_patch d2 obj).1 = [].
Proof.
  intros Hcls Hrun.
  destruct (get_draw_options d2
    (patch_line_data obj (Some (get_facecolor obj)))) as [opts' d3] eqn:Ho'.
  destruct (draw_patch_rectangle d2 obj r opts' d3 Hcls Ho') as [-> Hd3].
  pose proof (draw_artist_candidate data (APatch obj) (draw_patch data obj).1
    (draw_patch data obj).2) as Hfirst.
  simpl in Hfirst. rewrite Hcls in Hfirst.
  unfold _draw_rectangle.
  destruct (String.eqb (get_label obj) ""); [done|].
  destruct (String.eqb (recovered_label obj) "_nolegend_"); [done|].
  rewrite bool_decide_eq_true_2; [done|].
  rewrite Hd3. apply (run_legends _ _ _ _ Hrun).
  rewrite Hfirst by (by destruct (draw_patch data obj)).
  simpl. rewrite union_empty_r_L.
  by apply elem_of_union_r, elem_of_singleton.
Qed.

End RunInvariants.


(** ** The shape of the returned text *)

Lemma legend_pair_last_patch_legend art opts legend_type :
  legend_pair_last (_patch_legend art opts legend_type) = true.
Proof. unfold _patch_legend. by destruct (_is_in_legend art). Qed.

Lemma legend_entries_patch_legend art opts legend_type :
  legend_entries (_patch_legend art opts legend_type) =
  if _is_in_legend art then [artist_label art] else [].
Proof. unfold _patch_legend. by destruct (_is_in_legend art). Qed.

Lemma str_or_patch_legend art opts legend_type alt :
  str_or (_patch_legend art opts legend_type) alt =
  if _is_in_legend art then _patch_legend art opts legend_type else alt.
Proof.
  unfold str_or. destruct (_is_in_legend art) eqn:Hin.
  - unfold _patch_legend at 1. rewrite Hin, render_legend_pair. reflexivity.
  - unfold _patch_legend. by rewrite Hin.
Qed.

Lemma legend_entries_literal_blocks (blocks : list Text) :
  Forall (λ t, ∃ c, t = [Lit c]) blocks →
  concat (legend_entries <$> blocks) = [].
Proof.
  induction 1 as [|t blocks [c ->] _ IH]; [done|].
  rewrite fmap_cons. cbn [concat]. by rewrite IH.
Qed.

(** C4 (amended): a converted collection is one block of literal text
    per member followed by exactly one trailing block.  For a collection
    whose label is a text of its axes' legend, and draw options returned
    by the Path Emitter for the LAST member that are not empty, the
    trailing block is the legend block
    [\addlegendimage{<legend-type>, <options>}] [\addlegendentry{<label>}]
    whose legend type is "area legend" or "line legend" according to the
    verdict the Path Emitter returned for that last member.  With empty
    such options it is [\addlegendimage{}], without a legend type, and
    the entry; for a collection that is not in the legend it is a single
    newline. *)
Theorem collection_trailing_block data coll0 out data' :
  let coll := update_scalarmappable coll0 in
  draw_patchcollection data coll0 = Ok (out, data') →
  ∃ ms m st opts0 d1 path cont opts is_area blocks trailer,
    collection_members coll = ms ++ [m] ∧
    collection_loop coll
      {| st_content := []; st_last := None; st_data := data |} ms = Ok st ∧
    get_draw_options (st_data st) (member_line_data coll m) = (opts0, d1) ∧
    member_path m = Ok path ∧
    draw_path d1 path opts0 = (cont, opts, is_area, data') ∧
    out = OList (blocks ++ [trailer]) ∧
    length blocks = length (collection_members coll) ∧
    Forall (λ t, ∃ c, t = [Lit c]) blocks ∧
    (_is_in_legend (ACollection (Hatch:=Hatch) coll) = false →
     trailer = [Lit nl]) ∧
    (_is_in_legend (ACollection (Hatch:=Hatch) coll) = true → opts ≠ [] →
     trailer =
       [AddLegendImage
          ((if is_area then "area legend" else "line legend") +:+ ", " +:+
           String.concat ", " opts);
        AddLegendEntry (coll_label coll)] ∧
     render trailer =
       legend_block (if is_area then "area legend" else "line legend")
                    opts (coll_label coll)) ∧
    (_is_in_legend (ACollection (Hatch:=Hatch) coll) = true → opts = [] →
     trailer = [AddLegendImage ""; AddLegendEntry (coll_label coll)]).
Proof.
  intros coll Hd.
  destruct (collection_loop_last_member _ _ _ _ Hd)
    as (ms & m & st & opts0 & d1 & path & cont & opts & ia &
        Hms & Hloop & Hlen & Hall & Ho & Hp & Hdp & ->).
  fold coll in Hms, Hloop, Ho.
  exists ms, m, st, opts0, d1, path, cont, opts, ia,
    (st_content st ++ [[Lit cont]]),
    (str_or (_patch_legend (ACollection (Hatch:=Hatch) coll) opts
               (if ia then "area legend" else "line legend")) [Lit nl]).
  split_and!; try done.
  - by rewrite <- app_assoc.
  - rewrite Hms, !length_app, Hlen. reflexivity.
  - apply Forall_app. split; [done|]. constructor; [by eexists|constructor].
  - intros Hout. by rewrite str_or_patch_legend, Hout.
  - intros Hin Hopts. rewrite str_or_patch_legend, Hin.
    split.
    + unfold _patch_legend. rewrite Hin.
      destruct opts as [|o opts]; [done|]. by rewrite concat_cons_cons.
    + rewrite _patch_legend_render by done. by destruct opts.
  - intros Hin ->. rewrite str_or_patch_legend, Hin.
    unfold _patch_legend. by rewrite Hin.
Qed.

(** X5: every string that [draw_patch] or [draw_patchcollection]
    returns is literal drawing text followed by nothing, or by exactly
    one legend image with its legend entry right after it: no entry
    without its image, no second pair, no drawing text after a legend. *)
Theorem legend_pair_comes_last data (a : Artist) out data' :
  draw_artist data a = Ok (out, data') →
  Forall (λ t, legend_pair_last t = true) (output_texts out).
Proof.
  destruct a as [p|c]; simpl.
  - intros [= Hd]. replace out with (draw_patch data p).1 by (by rewrite Hd).
    destruct (cls p) as [g|r|e|g] eqn:Hcls.
    2: { unfold draw_patch. rewrite Hcls.
         destruct (get_draw_options _ _) as [opts d1].
         unfold _draw_rectangle.
         destruct (String.eqb (get_label p) ""); simpl; [constructor|].
         destruct (negb _ && negb _); simpl; by repeat constructor. }
    all: destruct (draw_patch_other_output data p)
           as (content & opts & lt & ->); [congruence|];
         simpl; constructor; [|constructor];
         apply legend_pair_last_patch_legend.
  - intros Hc.
    destruct (draw_patchcollection_ok _ _ _ _ Hc)
      as (st & opts & ia & Hloop & _ & _ & ->).
    destruct (collection_loop_content _ _ _ _ Hloop)
      as (blocks & -> & _ & Hall). simpl.
    apply Forall_app. split.
    + eapply Forall_impl; [exact Hall|]. by intros t [cont ->].
    + constructor; [|constructor]. rewrite str_or_patch_legend.
      destruct (_is_in_legend _); [|done].
      apply legend_pair_last_patch_legend.
Qed.

Lemma draw_artist_legend_label data (a : Artist) out data' :
  is_rectangle a = false →
  draw_artist data a = Ok (out, data') →
  output_legend_entries out = option_list (legend_label a).
Proof.
  intros Hrect. destruct a as [p|c]; simpl.
  - intros [= Hd]. replace out with (draw_patch data p).1 by (by rewrite Hd).
    destruct (draw_patch_other_output data p) as (content & opts & lt & ->).
    { intros r Hcls. simpl in Hrect. by rewrite Hcls in Hrect. }
    unfold output_legend_entries, legend_label. simpl.
    rewrite app_nil_r, legend_entries_patch_legend.
    by destruct (_is_in_legend _).
  - intros Hc.
    destruct (draw_patchcollection_ok _ _ _ _ Hc)
      as (st & opts & ia & Hloop & _ & _ & ->).
    destruct (collection_loop_content _ _ _ _ Hloop)
      as (blocks & Hb & _ & Hall). simpl in Hb. rewrite Hb.
    unfold output_legend_entries, output_texts, legend_label.
    rewrite fmap_app, concat_app, legend_entries_literal_blocks by done.
    simpl. rewrite app_nil_r, str_or_patch_legend.
    destruct (_is_in_legend _) eqn:Hin; [|done].
    by rewrite legend_entries_patch_legend, Hin.
Qed.

Lemma run_lookup (objs : list Artist) data outs data' i a :
  run data objs = Ok (outs, data') →
  objs !! i = Some a →
  ∃ d out d', outs !! i = Some out ∧ draw_artist d a = Ok (out, d').
Proof.
  revert data outs i. induction objs as [|b objs IH]; intros data outs i;
    simpl; [done|].
  destruct (draw_artist data b) as [[out d1]|e] eqn:Hb; [|done]. simpl.
  destruct (run d1 objs) as [[outs1 d2]|e] eqn:Hr; [|done]. simpl.
  intros [= <- <-]. destruct i as [|i]; simpl.
  - intros [= <-]. by exists data, out, d1.
  - intros Ha. by apply (IH d1 outs1 i Hr).
Qed.

Lemma run_length (objs : list Artist) data outs data' :
  run data objs = Ok (outs, data') → length outs = length objs.
Proof.
  revert data outs. induction objs as [|b objs IH]; intros data outs; simpl.
  - by intros [= <- _].
  - destruct (draw_artist data b) as [[out d1]|e]; [|done]. simpl.
    destruct (run d1 objs) as [[outs1 d2]|e] eqn:Hr; [|done]. simpl.
    intros [= <- <-]. simpl. by rewrite (IH _ _ Hr).
Qed.

(** X6: a run returns one output per artist, in order; the output of an
    artist that is not a rectangle holds one legend entry, with the
    artist's own label, when the artist is in the legend of its axes, and
    none otherwise, whatever was converted before it. *)
Theorem legend_entry_per_artist (objs : list Artist) data outs data' :
  run data objs = Ok (outs, data') →
  length outs = length objs ∧
  ∀ i a out, objs !! i = Some a → outs !! i = Some out →
    is_rectangle a = false →
    output_legend_entries out = option_list (legend_label a).
Proof.
  intros Hrun. split; [by eapply run_length|].
  intros i a out Ha Hout Hrect.
  destruct (run_lookup _ _ _ _ _ _ Hrun Ha) as (d & out' & d' & Hout' & Hd).
  rewrite Hout in Hout'. injection Hout' as <-.
  by eapply draw_artist_legend_label.
Qed.


(** ** More on the pairing and the loop *)

Lemma cyclic_lt {A} (l : list A) i : i < length l → cyclic l i = l !! i.
Proof.
  intros Hi. unfold cyclic. destruct l as [|a l]; [simpl in Hi; lia|].
  by rewrite Nat.mod_small.
Qed.

Lemma cyclic_is_Some {A} (l : list A) i : l ≠ [] → is_Some (cyclic l i).
Proof.
  intros Hl. destruct (cyclic l i) eqn:Hc; [done|].
  by apply cyclic_nil_iff in Hc.
Qed.

Lemma length_le_style_length {A} (l : list A) :
  (length l ≤ style_length l)%nat.
Proof. destruct l; simpl; lia. Qed.

Lemma collection_steps_bounds coll :
  (length (coll_paths coll) ≤ collection_steps coll)%nat ∧
  (length (coll_edgecolor coll) ≤ collection_steps coll)%nat ∧
  (length (coll_facecolor coll) ≤ collection_steps coll)%nat ∧
  (length (coll_linestyle coll) ≤ collection_steps coll)%nat ∧
  (length (coll_linewidth coll) ≤ collection_steps coll)%nat ∧
  (length (coll_transforms coll) ≤ collection_steps coll)%nat ∧
  (length (coll_offsets coll) ≤ collection_steps coll)%nat.
Proof.
  unfold collection_steps, longest_without_offsets. simpl.
  pose proof (length_le_style_length (coll_edgecolor coll)).
  pose proof (length_le_style_length (coll_facecolor coll)).
  pose proof (length_le_style_length (coll_linestyle coll)).
  pose proof (length_le_style_length (coll_linewidth coll)).
  pose proof (length_le_style_length (coll_transforms coll)).
  lia.
Qed.

Lemma member_of_element {A} coll (l : list A) (proj : Member → option A) x :
  (length l ≤ collection_steps coll)%nat →
  (∀ i, proj (cyclic_member coll i) = cyclic l i) →
  x ∈ l →
  ∃ m, m ∈ collection_members coll ∧ proj m = Some x.
Proof.
  intros Hlen Hproj [i Hi]%list_elem_of_lookup.
  pose proof (lookup_lt_Some _ _ _ Hi) as Hlt.
  exists (cyclic_member coll i). split.
  - apply list_elem_of_lookup. exists i.
    apply lookup_collection_members. lia.
  - by rewrite Hproj, cyclic_lt.
Qed.

(** X7: unlike [zip], the pairing of [draw_patchcollection] drops
    nothing: every path, edge color, face color, line style, line width,
    transform and offset of the collection is used by at least one
    member of the loop. *)
Theorem collection_members_use_every_element coll :
  (∀ x, x ∈ coll_paths coll →
        ∃ m, m ∈ collection_members coll ∧ m_path m = Some x) ∧
  (∀ x, x ∈ coll_edgecolor coll →
        ∃ m, m ∈ collection_members coll ∧ m_ec m = Some x) ∧
  (∀ x, x ∈ coll_facecolor coll →
        ∃ m, m ∈ collection_members coll ∧ m_fc m = Some x) ∧
  (∀ x, x ∈ coll_linestyle coll →
        ∃ m, m ∈ collection_members coll ∧ m_ls m = Some x) ∧
  (∀ x, x ∈ coll_linewidth coll →
        ∃ m, m ∈ collection_members coll ∧ m_w m = Some x) ∧
  (∀ x, x ∈ coll_transforms coll →
        ∃ m, m ∈ collection_members coll ∧ m_t m = Some x) ∧
  (∀ x, x ∈ coll_offsets coll →
        ∃ m, m ∈ collection_members coll ∧ m_off m = Some x).
Proof.
  destruct (collection_steps_bounds coll)
    as (Hp & Hec & Hfc & Hls & Hw & Ht & Hoff).
  split_and!; intros x Hx.
  - exact (member_of_element coll _ m_path x Hp (λ _, eq_refl) Hx).
  - exact (member_of_element coll _ m_ec x Hec (λ _, eq_refl) Hx).
  - exact (member_of_element coll _ m_fc x Hfc (λ _, eq_refl) Hx).
  - exact (member_of_element coll _ m_ls x Hls (λ _, eq_refl) Hx).
  - exact (member_of_element coll _ m_w x Hw (λ _, eq_refl) Hx).
  - exact (member_of_element coll _ m_t x Ht (λ _, eq_refl) Hx).
  - exact (member_of_element coll _ m_off x Hoff (λ _, eq_refl) Hx).
Qed.

(** X8: when the seven arrays of a collection all have the same
    non-zero length [n], the loop runs [n] times and member [i] is
    element [i] of every array: the pairing is the plain positional
    zip. *)
Theorem collection_members_equal_lengths coll n i :
  (0 < n)%nat →
  length (coll_paths coll) = n →
  length (coll_edgecolor coll) = n →
  length (coll_facecolor coll) = n →
  length (coll_linestyle coll) = n →
  length (coll_linewidth coll) = n →
  length (coll_transforms coll) = n →
  length (coll_offsets coll) = n →
  i < n →
  length (collection_members coll) = n ∧
  collection_members coll !! i =
    Some {| m_path := coll_paths coll !! i;
            m_ec := coll_edgecolor coll !! i;
            m_fc := coll_facecolor coll !! i;
            m_ls := coll_linestyle coll !! i;
            m_w := coll_linewidth coll !! i;
            m_t := coll_transforms coll !! i;
            m_off := coll_offsets coll !! i |}.
Proof.
  intros Hn Hp Hec Hfc Hls Hw Ht Hoff Hi.
  assert (collection_steps coll = n) as Hsteps.
  { unfold collection_steps, longest_without_offsets, style_length. simpl.
    destruct (coll_edgecolor coll), (coll_facecolor coll),
      (coll_linestyle coll), (coll_linewidth coll), (coll_transforms coll);
      simpl in *; lia. }
  split; [by rewrite length_collection_members|].
  rewrite lookup_collection_members by lia.
  unfold cyclic_member. by rewrite !cyclic_lt by lia.
Qed.

Lemma member_path_cyclic_member coll i :
  member_path (cyclic_member coll i) =
  match cyclic (coll_transforms coll) i with
  | None => Ok (cyclic (coll_paths coll) i)
  | Some t =>
      match cyclic (coll_paths coll) i with
      | None => Raise AttributeError
      | Some path =>
          match cyclic (coll_offsets coll) i with
          | None => Raise TypeError
          | Some (tx, ty) =>
              Ok (Some (transformed path (translate (Affine2D t) tx ty)))
          end
      end
  end.
Proof. reflexivity. Qed.


Lemma collection_loop_total coll ms st :
  Forall (λ m, ∃ path, member_path m = Ok path) ms →
  ∃ st', collection_loop coll st ms = Ok st' ∧
         (ms ≠ [] → is_Some (st_last st')).
Proof.
  intros Hall. revert st.
  induction Hall as [|m ms [path Hm] _ IH]; intros st; simpl.
  - by exists st.
  - unfold collection_step at 1. rewrite Hm.
    destruct (get_draw_options _ _) as [opts0 d1]. simpl.
    destruct (draw_path _ _ _) as [[[cont opts] ia] d2]. simpl.
    destruct (IH {| st_content := st_content st ++ [[Lit cont]];
                    st_last := Some (opts, ia); st_data := d2 |})
      as (st' & Hloop & Hlast).
    exists st'. split; [done|]. intros _.
    destruct ms as [|m' ms]; [|by apply Hlast].
    simpl in Hloop. injection Hloop as <-. by eexists.
Qed.

Lemma draw_patchcollection_first_raise data coll0 e :
  member_path (cyclic_member (update_scalarmappable coll0) 0) = Raise e →
  draw_patchcollection data coll0 = Raise e.
Proof.
  intros He. unfold draw_patchcollection.
  pose proof (lookup_collection_members (update_scalarmappable coll0) 0
                (collection_steps_pos _)) as Hm.
  destruct (collection_members _) as [|m ms]; [done|].
  injection Hm as ->. simpl. unfold collection_step at 1.
  destruct (get_draw_options _ _) as [opts0 d1]. by rewrite He.
Qed.

(** X10: what [draw_patchcollection] raises.  It returns when the
    collection has no transform, or has both paths and offsets; with a
    transform and no path it raises [AttributeError]; with a transform
    and paths but no offset it raises [TypeError]; the variables read
    after the loop are never unbound. *)
Theorem draw_patchcollection_exceptions data coll0 :
  let coll := update_scalarmappable coll0 in
  match draw_patchcollection data coll0 with
  | Ok _ =>
      coll_transforms coll = [] ∨
      (coll_paths coll ≠ [] ∧ coll_offsets coll ≠ [])
  | Raise AttributeError =>
      coll_transforms coll ≠ [] ∧ coll_paths coll = []
  | Raise TypeError =>
      coll_transforms coll ≠ [] ∧ coll_paths coll ≠ [] ∧
      coll_offsets coll = []
  | Raise UnboundLocalError => False
  end.
Proof.
  intros coll.
  destruct (decide (coll_transforms coll = [])) as [Hts|Hts];
    [|destruct (decide (coll_paths coll = [])) as [Hps|Hps];
      [|destruct (decide (coll_offsets coll = [])) as [Hoffs|Hoffs]]].
  2: { rewrite (draw_patchcollection_first_raise data coll0 AttributeError);
         [done|]. fold coll. rewrite member_path_cyclic_member.
       destruct (cyclic_is_Some _ 0 Hts) as [t ->].
       by rewrite (proj2 (cyclic_nil_iff _ 0) Hps). }
  2: { rewrite (draw_patchcollection_first_raise data coll0 TypeError);
         [done|]. fold coll. rewrite member_path_cyclic_member.
       destruct (cyclic_is_Some _ 0 Hts) as [t ->].
       destruct (cyclic_is_Some _ 0 Hps) as [path ->].
       by rewrite (proj2 (cyclic_nil_iff _ 0) Hoffs). }
  all: assert (Forall (λ m, ∃ path, member_path m = Ok path)
                 (collection_members coll)) as Hall.
  1, 3: apply Forall_lookup; intros i m [_ ->]%collection_members_lookup;
    rewrite member_path_cyclic_member.
  - rewrite (proj2 (cyclic_nil_iff _ i) Hts). by eexists.
  - destruct (cyclic_is_Some _ i Hts) as [t ->].
    destruct (cyclic_is_Some _ i Hps) as [path ->].
    destruct (cyclic_is_Some _ i Hoffs) as [[tx ty] ->]. by eexists.
  - destruct (collection_loop_total coll _
      {| st_content := []; st_last := None; st_data := data |} Hall)
      as (st & Hloop & Hlast).
    unfold draw_patchcollection. fold coll. rewrite Hloop. simpl.
    destruct Hlast as [[opts ia] ->]; [|simpl; by left].
    destruct (collection_members_snoc coll) as (ms & m & ->).
    by destruct ms.
  - destruct (collection_loop_total coll _
      {| st_content := []; st_last := None; st_data := data |} Hall)
      as (st & Hloop & Hlast).
    unfold draw_patchcollection. fold coll. rewrite Hloop. simpl.
    destruct Hlast as [[opts ia] ->]; [|simpl; by right].
    destruct (collection_members_snoc coll) as (ms & m & ->).
    by destruct ms.
Qed.


(** X14: every patch gives exactly one drawing text, in one string,
    alone or followed by one legend image and its entry; the one
    exception is the rectangle with the empty label, which gives the
    empty list. *)
Theorem draw_patch_one_drawing data obj :
  ((∃ r, cls obj = Rectangle r ∧ get_label obj = "") ∧
   (draw_patch data obj).1 = OList []) ∨
  ((¬ ∃ r, cls obj = Rectangle r ∧ get_label obj = "") ∧
   ∃ content,
     (draw_patch data obj).1 = OStr [Lit content] ∨
     ∃ o l, (draw_patch data obj).1 =
            OStr [Lit content; AddLegendImage o; AddLegendEntry l]).
Proof.
  destruct (cls obj) as [g|r|e|g] eqn:Hcls.
  2: { unfold draw_patch. rewrite Hcls.
       destruct (get_draw_options _ _) as [opts d1]. unfold _draw_rectangle.
       destruct (String.eqb_spec (get_label obj) "") as [Hlabel|Hlabel].
       - left. split; [by exists r | done].
       - right. split; [by intros (r' & _ & Hl)|].
         eexists. destruct (negb _ && negb _); simpl;
           [right; by eexists _, _ | by left]. }
  all: right; split; [intros (r & Hr & _); congruence|];
    destruct (draw_patch_other_output data obj)
      as (content & opts & lt & ->); [congruence|];
    exists content; unfold _patch_legend;
    destruct (_is_in_legend _); [right; by eexists _, _ | by left].
Qed.


(** ** Label recovery *)

Lemma filter_nil_lookup {A} (P : A → Prop) `{!∀ x, Decision (P x)}
    (l : list A) :
  filter P l = [] ↔ ∀ j y, l !! j = Some y → ¬ P y.
Proof.
  split.
  - intros Hnil j y Hj Hy.
    assert (y ∈ filter P l) as Hin.
    { apply list_elem_of_filter. split; [done|].
      apply list_elem_of_lookup. by exists j. }
    rewrite Hnil in Hin. by apply elem_of_nil in Hin.
  - intros Hnone. apply elem_of_nil_inv. intros y.
    rewrite list_elem_of_filter, list_elem_of_lookup.
    intros [Hy [j Hj]]. by apply (Hnone j y).
Qed.

Lemma filter_singleton_lookup {A} (P : A → Prop) `{!∀ x, Decision (P x)}
    (l : list A) x :
  filter P l = [x] ↔
  ∃ i, l !! i = Some x ∧ P x ∧ ∀ j y, l !! j = Some y → P y → j = i.
Proof.
  induction l as [|a l IH].
  { split; [done|]. by intros (i & Hi & _). }
  rewrite filter_cons. destruct (decide (P a)) as [Ha|Ha].
  - split.
    + intros [= -> Hnil]. exists 0. split_and!; [done..|].
      intros [|j] y Hj Hy; [done|].
      by destruct (proj1 (filter_nil_lookup P l) Hnil j y).
    + intros (i & Hi & Hx & Huniq).
      pose proof (Huniq 0 a eq_refl Ha) as <-. injection Hi as ->.
      f_equal. apply filter_nil_lookup. intros j y Hj Hy.
      by pose proof (Huniq (S j) y Hj Hy).
  - rewrite IH. split.
    + intros (i & Hi & Hx & Huniq). exists (S i). split_and!; [done..|].
      intros [|j] y Hj Hy.
      * injection Hj as ->. done.
      * f_equal. by apply (Huniq j y).
    + intros ([|i] & Hi & Hx & Huniq).
      * injection Hi as ->. done.
      * exists i. split_and!; [done..|].
        intros j y Hj Hy. by pose proof (Huniq (S j) y Hj Hy) as [= ->].
Qed.

(** X11: the label of a rectangle is replaced by a legend label exactly
    when one and only one handle of the axes' (handle, label) pairs has
    the rectangle among its children, and then by the label of that
    handle; with no such handle, or with several, the rectangle keeps its
    own label. *)
Theorem recovered_label_owner obj hs ls :
  get_legend_handles_labels (axes obj) = (hs, ls) →
  let owner i h l :=
    hs !! i = Some h ∧ ls !! i = Some l ∧ patch_id obj ∈ get_children h in
  (∀ i h l, owner i h l →
     (∀ j h' l', owner j h' l' → j = i) →
     recovered_label obj = l) ∧
  ((¬ ∃ i h l, owner i h l ∧ ∀ j h' l', owner j h' l' → j = i) →
   recovered_label obj = get_label obj).
Proof.
  intros Hhl owner. unfold recovered_label. rewrite Hhl.
  set (P := λ hl : Handle * string, patch_id obj ∈ get_children hl.1).
  assert (∀ i h l, owner i h l ↔ zip hs ls !! i = Some (h, l) ∧ P (h, l))
    as Howner.
  { intros i h l. unfold owner, P. simpl.
    rewrite lookup_zip_with_Some. split.
    - intros (Hh & Hl & Hin). split; [|done]. by exists h, l.
    - intros [(h' & l' & [= -> ->] & Hh & Hl) Hin]. done. }
  split.
  - intros i h l Hi Huniq.
    assert (filter P (zip hs ls) = [(h, l)]) as ->; [|done].
    apply filter_singleton_lookup. exists i.
    apply Howner in Hi as [Hi HP]. split_and!; [done..|].
    intros j [h' l'] Hj HP'. apply (Huniq j h' l'). by apply Howner.
  - intros Hnone.
    destruct (filter P (zip hs ls)) as [|[h l] [|? ?]] eqn:Hf; [done| |done].
    destruct Hnone. apply filter_singleton_lookup in Hf as (i & Hi & HP & Huniq).
    exists i, h, l. split; [by apply Howner|].
    intros j h' l' [Hj HP']%Howner. by apply (Huniq j (h', l')).
Qed.


End Properties.

(** * The scripts beside the patch layer *)

Lemma foldl_snoc_replicate {A B} (x : A) (l : list B) (acc : list A) :
  foldl (λ out _, out ++ [x]) acc l = acc ++ replicate (length l) x.
Proof.
  revert acc. induction l as [|b l IH]; intros acc; simpl.
  - by rewrite app_nil_r.
  - rewrite IH, <- app_assoc. reflexivity.
Qed.

(** X12: [hello(who, n)] prints [n] lines, none when [n] is zero or
    negative, each of them the decimal of [n], ["Hello"] and [who]
    separated by single spaces; without [n] it prints ["1 Hello <who>"]
    once. *)
Theorem hello_lines who n :
  Tmp.hello who n =
    replicate (Z.to_nat (default 1%Z n))
              (pretty (default 1%Z n) +:+ " Hello " +:+ who) ∧
  ((default 1%Z n ≤ 0)%Z → Tmp.hello who n = []) ∧
  Tmp.hello who None = ["1 Hello " +:+ who].
Proof.
  assert (Tmp.hello who n =
    replicate (Z.to_nat (default 1%Z n))
              (pretty (default 1%Z n) +:+ " Hello " +:+ who)) as Hlines.
  { unfold Tmp.hello. rewrite foldl_snoc_replicate, length_seqZ.
    reflexivity. }
  split_and!; [done| |reflexivity].
  intros Hn. rewrite Hlines.
  by replace (Z.to_nat (default 1%Z n)) with 0 by lia.
Qed.

Lemma starts_with_app (a b line : string) :
  Helpers.starts_with (a +:+ b) line → Helpers.starts_with a line.
Proof. intros [rest ->]. exists (b +:+ rest). apply append_assoc. Qed.

(** X13: [print_tree] prints one line per object of the tree; every
    line starts with the indent it was called with, and every line after
    the first (the lines of the descendants) with that indent and two
    more spaces. *)
Theorem print_tree_lines obj indent :
  length (Helpers.print_tree obj indent) = Helpers.tree_size obj ∧
  Forall (Helpers.starts_with indent) (Helpers.print_tree obj indent) ∧
  Forall (Helpers.starts_with (indent +:+ "  "))
         (tail (Helpers.print_tree obj indent)).
Proof.
  cut (length (Helpers.print_tree obj indent) = Helpers.tree_size obj ∧
       Forall (Helpers.starts_with indent) (Helpers.print_tree obj indent)).
  { intros [Hlen Hall]. split_and!; [done..|].
    destruct obj as [type_name get_text children]. simpl.
    clear Hlen Hall. apply Forall_flat_map, Forall_forall.
    intros child _. revert child.
    cut (∀ o ind, Forall (Helpers.starts_with ind) (Helpers.print_tree o ind)).
    { intros Hany child. apply Hany. }
    fix IH 1. intros [name text cs] ind. simpl. constructor.
    - destruct text; by eexists.
    - induction cs as [|c cs IHcs]; simpl; [constructor|].
      apply Forall_app. split; [|exact IHcs].
      eapply Forall_impl; [apply (IH c)|]. intros line. apply starts_with_app. }
  revert obj indent. fix IH 1. intros [type_name get_text children] indent.
  assert (∀ ind,
    length (flat_map (λ c, Helpers.print_tree c ind) children) =
      list_sum (map Helpers.tree_size children) ∧
    Forall (Helpers.starts_with ind)
      (flat_map (λ c, Helpers.print_tree c ind) children)) as Hchildren.
  { intros ind. induction children as [|c cs IHcs]; simpl.
    - by split.
    - destruct (IH c ind) as [Hlen Hall]. destruct IHcs as [Hlens Halls].
      split.
      + by rewrite length_app, Hlen, Hlens.
      + by apply Forall_app. }
  destruct (Hchildren (indent +:+ "  ")) as [Hlen Hall]. simpl. split.
  - by rewrite Hlen.
  - constructor.
    + destruct get_text as [text|]; by eexists.
    + eapply Forall_impl; [exact Hall|]. intros line. apply starts_with_app.
Qed.

(** * The example figure *)

Section Examples.
Import Demo.
#[local] Existing Instance collaborators.

Local Abbreviation demo_patch := (draw_patch (C:=collaborators)).
Local Abbreviation demo_collection := (draw_patchcollection (C:=collaborators)).
Local Abbreviation demo_run := (run (C:=collaborators)).

(** The text of the first bar, as [draw_patch] returns it. *)
Example first_bar_text :
  render <$> output_texts (demo_patch data0 bar1).1 =
  ["\draw[draw=black,fill=blue] (axis cs:0,0) rectangle (axis cs:1,2);"
   +:+ nl +:+
   "\addlegendimage{ybar,ybar legend,draw=black,fill=blue}" +:+ nl +:+
   "\addlegendentry{a}" +:+ nl +:+ nl].
Proof. reflexivity. Qed.

(** One edge color and five paths: every member has that color. *)
Example single_edge_color :
  m_ec <$> collection_members
             (collection "a" [triangle; segment; triangle; segment; triangle]
                ["red"] [] []) =
  [Some "red"; Some "red"; Some "red"; Some "red"; Some "red"].
Proof. reflexivity. Qed.

(** The axes background is skipped. *)
Lemma empty_label_rectangle_skipped_witness :
  (demo_patch data0 background).1 = OList [] ∧
  output_texts (demo_patch data0 background).1 = [] ∧
  rectangle_legends (demo_patch data0 background).2 = rectangle_legends data0.
Proof.
  apply (empty_label_rectangle_skipped (H:=demo_frame) data0 background
           (box 0 4)); reflexivity.
Defined.

(** C1 as stated fails on the axes background: its label is neither the
    placeholder nor in the set, and it gets no legend pair and its label
    does not enter the set. *)
Lemma empty_label_rectangle_no_legend :
  cls background = Rectangle (box 0 4) ∧
  recovered_label background ≠ "_nolegend_" ∧
  (recovered_label background ∉ rectangle_legends data0) ∧
  (demo_patch data0 background).1 = OList [] ∧
  output_legend_entries (demo_patch data0 background).1 = [] ∧
  (recovered_label background
     ∉ rectangle_legends (demo_patch data0 background).2).
Proof.
  split_and!; try reflexivity.
  - discriminate.
  - apply not_elem_of_empty.
  - apply not_elem_of_empty.
Qed.

(** The first bar of a container brings the legend pair, the second one,
    a disc and a collection later, does not. *)
Lemma rectangle_legend_emitted_once_witness :
  demo_patch data0 bar1 =
    (OStr [Lit (rectangle_cont (C:=collaborators) ".8g" (box 0 1)
                  ["draw=black"; "fill=blue"]);
           AddLegendImage "ybar,ybar legend,draw=black,fill=blue";
           AddLegendEntry "a"],
     add_rectangle_legend "a"
       (get_draw_options (Collaborators:=collaborators) data0
          (patch_line_data bar1 (Some "blue"))).2) ∧
  rectangle_legends (demo_patch data0 bar1).2 =
    {["a"]} ∪ rectangle_legends data0 ∧
  demo_patch after_between.2 bar2 =
    (OStr [Lit (rectangle_cont (C:=collaborators) ".8g" (box 1 1)
                  ["draw=black"; "fill=blue"])],
     (get_draw_options (Collaborators:=collaborators) after_between.2
        (patch_line_data bar2 (Some "blue"))).2).
Proof.
  apply (rectangle_legend_emitted_once (H:=demo_frame) data0 bar1 (box 0 1)
           ["draw=black"; "fill=blue"]
           (get_draw_options (Collaborators:=collaborators) data0
              (patch_line_data bar1 (Some "blue"))).2
           between after_between.1 after_between.2 bar2 (box 1 1)).
  - reflexivity.
  - discriminate.
  - discriminate.
  - apply not_elem_of_empty.
  - reflexivity.
  - vm_compute; reflexivity.
  - reflexivity.
  - discriminate.
  - reflexivity.
  - reflexivity.
Defined.

(** C8 as stated fails: two discs with the label of a legend text both
    get a legend entry. *)
Lemma two_discs_two_entries :
  ∃ outs d,
    demo_run data0 two_discs = Ok (outs, d) ∧
    run_legend_entries outs = ["a"; "a"] ∧
    ¬ NoDup (run_legend_entries outs).
Proof.
  eexists _, _. split; [vm_compute; reflexivity|].
  split; [reflexivity|].
  intros Hnd. apply NoDup_cons in Hnd as [Hin _].
  apply Hin. by left.
Qed.

Lemma rectangle_legend_entries_unique_witness :
  ∃ outs d,
    demo_run data0 figure = Ok (outs, d) ∧
    run_legend_entries outs = ["a"; "b"; "a"] ∧
    NoDup (rectangle_legend_entries figure outs).
Proof.
  eexists _, _. split; [vm_compute; reflexivity|].
  split; [reflexivity|].
  eapply (rectangle_legend_entries_unique (H:=demo_frame) figure data0).
  vm_compute; reflexivity.
Defined.

(** C2 as stated fails: one path, one edge color, three offsets.  The
    longest among paths, colors, styles, widths and transforms is 1; the
    loop runs three times. *)
Lemma offsets_lengthen_iteration :
  longest_without_offsets scatter = 1 ∧
  length (collection_members scatter) = 3 ∧
  ∃ b1 b2 b3 legend d,
    demo_collection data0 scatter = Ok (OList [b1; b2; b3; legend], d).
Proof.
  split_and!; [reflexivity | reflexivity |].
  eexists _, _, _, _, _. vm_compute. reflexivity.
Qed.

Lemma collection_iteration_witness :
  length (collection_members scatter) = 3 ∧
  collection_members scatter !! 2 = Some (cyclic_member scatter 2) ∧
  ∃ out d blocks legend,
    demo_collection data0 scatter = Ok (out, d) ∧
    out = OList (blocks ++ [legend]) ∧ length blocks = 3.
Proof.
  destruct (collection_iteration (C:=collaborators) data0 scatter)
    as (Hlen & Hpos & Hmember & Hblocks).
  split_and!.
  - exact Hlen.
  - apply Hmember. vm_compute. lia.
  - destruct (demo_collection data0 scatter) as [[out d]|e] eqn:Hd;
      [|vm_compute in Hd; discriminate].
    destruct (Hblocks out d eq_refl) as (blocks & legend & Hout & Hn).
    by exists out, d, blocks, legend.
Defined.

(** C4 as stated fails.  A collection whose label is not a text of the
    legend: its last (only) member is an area, and the trailing block is
    a newline, not a legend block.  A collection in the legend without
    style directives: the trailing block is [\addlegendimage{}] whether
    the last member is an area or a line. *)
Lemma trailing_block_without_legend_type :
  _is_in_legend (ACollection (Hatch:=string) unlisted) = false ∧
  (∃ cont d, @draw_path _ _ _ _ _ _ _ collaborators data0 (Some triangle)
               ["draw=red"] = (cont, ["draw=red"], true, d)) ∧
  (∃ block d,
     demo_collection data0 unlisted = Ok (OList [block; [Lit nl]], d) ∧
     output_legend_entries (OList [block; [Lit nl]]) = [] ∧
     render [Lit nl] ≠ legend_block "area legend" ["draw=red"] "z") ∧
  (∃ block d,
     demo_collection data0 colourless =
       Ok (OList [block; [AddLegendImage ""; AddLegendEntry "a"]], d)) ∧
  (∃ block d,
     demo_collection data0 blank_area =
       Ok (OList [block; [AddLegendImage ""; AddLegendEntry "a"]], d)) ∧
  render [AddLegendImage ""; AddLegendEntry "a"] ≠
    legend_block "area legend" [] "a" ∧
  render [AddLegendImage ""; AddLegendEntry "a"] ≠
    legend_block "line legend" [] "a".
Proof.
  split_and!.
  - reflexivity.
  - eexists _, _. reflexivity.
  - eexists _, _. split_and!; [reflexivity | reflexivity | discriminate].
  - eexists _, _. reflexivity.
  - eexists _, _. reflexivity.
  - discriminate.
  - discriminate.
Qed.

(** A triangle, then a segment, in the legend and drawn in red: the
    trailing block is the legend block of a line. *)
Lemma collection_trailing_block_witness :
  ∃ out d,
    demo_collection data0 mixed = Ok (out, d) ∧
    last (output_texts out) =
      Some [AddLegendImage "line legend, draw=red"; AddLegendEntry "a"] ∧
    ∃ ms m st opts0 d1 path cont opts is_area blocks trailer,
      collection_members mixed = ms ++ [m] ∧
      collection_loop (C:=collaborators) mixed start ms = Ok st ∧
      get_draw_options (st_data st) (member_line_data mixed m) = (opts0, d1) ∧
      member_path (C:=collaborators) m = Ok path ∧
      draw_path d1 path opts0 = (cont, opts, is_area, d) ∧
      out = OList (blocks ++ [trailer]) ∧
      length blocks = length (collection_members mixed) ∧
      Forall (λ t, ∃ c, t = [Lit c]) blocks ∧
      (_is_in_legend (ACollection (Hatch:=string) mixed) = false →
       trailer = [Lit nl]) ∧
      (_is_in_legend (ACollection (Hatch:=string) mixed) = true →
       opts ≠ [] →
       trailer =
         [AddLegendImage
            ((if is_area then "area legend" else "line legend") +:+ ", " +:+
             String.concat ", " opts);
          AddLegendEntry (coll_label mixed)] ∧
       render trailer =
         legend_block (if is_area then "area legend" else "line legend")
                      opts (coll_label mixed)) ∧
      (_is_in_legend (ACollection (Hatch:=string) mixed) = true →
       opts = [] →
       trailer = [AddLegendImage ""; AddLegendEntry (coll_label mixed)]).
Proof.
  eexists _, _. split; [vm_compute; reflexivity|].
  split; [reflexivity|].
  eapply (collection_trailing_block (C:=collaborators) data0 mixed).
  vm_compute; reflexivity.
Defined.


(** With offsets the translation goes through; a transform without
    offsets raises. *)
Lemma offset_unpack_precondition_witness :
  demo_collection data0 placed ≠ Raise TypeError ∧
  (∃ r, demo_collection data0 placed = Ok r) ∧
  demo_collection data0 unplaced = Raise TypeError.
Proof.
  destruct (offset_unpack_precondition (C:=collaborators) data0 placed)
    as (_ & _ & Hok & _).
  destruct (offset_unpack_precondition (C:=collaborators) data0 unplaced)
    as (_ & _ & _ & Hraise).
  split_and!.
  - apply Hok. discriminate.
  - eexists. vm_compute. reflexivity.
  - destruct Hraise as (e & -> & He); [discriminate | reflexivity |].
    f_equal. apply He. discriminate.
Defined.

(** C7 as stated fails when there is no style directive: a disc in the
    legend under a Style Resolver that returns none, and (the Legend
    Binder being the same) a collection without colors. *)
Lemma legend_image_without_options :
  _is_in_legend (APatch (Matrix:=unit) (disc 3 "a")) = true ∧
  draw_patch (C:=plain) data0 (disc 3 "a") =
    (OStr [Lit ("\draw[] (axis cs:1,2) circle (0.5);" +:+ nl);
           AddLegendImage ""; AddLegendEntry "a"], data0) ∧
  demo_collection data0 colourless =
    Ok (OList [[Lit ("\path [] (axis cs:0,0) -- (axis cs:1,1);" +:+ nl)];
               [AddLegendImage ""; AddLegendEntry "a"]], data0) ∧
  render [AddLegendImage ""; AddLegendEntry "a"] =
    "\addlegendimage{}" +:+ nl +:+ "\addlegendentry{a}" +:+ nl +:+ nl ∧
  legend_block "area legend" [] "a" =
    "\addlegendimage{area legend, }" +:+ nl +:+
    "\addlegendentry{a}" +:+ nl +:+ nl ∧
  render [AddLegendImage ""; AddLegendEntry "a"] ≠
    legend_block "area legend" [] "a".
Proof. split_and!; [reflexivity.. | discriminate]. Qed.

Lemma non_rectangle_legend_block_witness :
  ∃ content opts legend_type legend,
    legend = _patch_legend (APatch (Matrix:=unit) (disc 3 "a")) opts
               legend_type ∧
    (demo_patch data0 (disc 3 "a")).1 = OStr (Lit content :: legend) ∧
    (legend ≠ [] ↔ ∃ leg, get_legend (axes (disc 3 "a")) = Some leg ∧
                          get_label (disc 3 "a") ∈ get_texts leg) ∧
    (get_legend (axes (disc 3 "a")) = None → legend = []) ∧
    (legend ≠ [] → opts ≠ [] →
     render legend = legend_block legend_type opts (get_label (disc 3 "a"))) ∧
    (legend ≠ [] → opts = [] →
     render legend = "\addlegendimage{}" +:+ nl +:+
       "\addlegendentry{" +:+ get_label (disc 3 "a") +:+ "}" +:+ nl +:+ nl).
Proof.
  apply (non_rectangle_legend_block (C:=collaborators) data0 (disc 3 "a")).
  intros r. discriminate.
Defined.

(** C6 as stated fails: the rotation directive of a tilted ellipse comes
    after the draw options, not before them. *)
Lemma rotation_directive_comes_last :
  (demo_patch data0 (oval 30)).1 =
    OStr [Lit ("\draw[draw=black,fill=blue,rotate around={30:(axis cs:1,2)}]"
               +:+ " (axis cs:1,2) ellipse (2 and 1);" +:+ nl);
          AddLegendImage ("area legend, draw=black, fill=blue, "
                          +:+ "rotate around={30:(axis cs:1,2)}");
          AddLegendEntry "b"] ∧
  (demo_patch data0 (oval 30)).1 ≠
    OStr [Lit ("\draw[rotate around={30:(axis cs:1,2)},draw=black,fill=blue]"
               +:+ " (axis cs:1,2) ellipse (2 and 1);" +:+ nl);
          AddLegendImage ("area legend, draw=black, fill=blue, "
                          +:+ "rotate around={30:(axis cs:1,2)}");
          AddLegendEntry "b"].
Proof. split; [reflexivity | discriminate]. Qed.

Lemma ellipse_rotation_witness :
  demo_patch data0 (oval 0) =
    (OStr [Lit ("\draw[draw=black,fill=blue] (axis cs:1,2) ellipse (2 and 1);"
                +:+ nl);
           AddLegendImage "area legend, draw=black, fill=blue";
           AddLegendEntry "b"],
     (get_draw_options (Collaborators:=collaborators) data0
        (patch_line_data (oval 0) (Some "blue"))).2) ∧
  (demo_patch data0 (oval 30)).1 =
    OStr [Lit ("\draw[draw=black,fill=blue,rotate around={30:(axis cs:1,2)}]"
               +:+ " (axis cs:1,2) ellipse (2 and 1);" +:+ nl);
          AddLegendImage ("area legend, draw=black, fill=blue, "
                          +:+ "rotate around={30:(axis cs:1,2)}");
          AddLegendEntry "b"].
Proof.
  split.
  - edestruct (ellipse_rotation (C:=collaborators) data0 (oval 0))
      as (Hzero & _ & _); [reflexivity | reflexivity |].
    rewrite Hzero; reflexivity.
  - edestruct (ellipse_rotation (C:=collaborators) data0 (oval 30))
      as (_ & Hturned & _); [reflexivity | reflexivity |].
    rewrite Hturned; reflexivity.
Defined.

Lemma arrow_line_or_path_witness :
  (demo_patch data0 (arrow (Some ((0, 0), (1, 2))%float))).1 =
    OStr [Lit ("\draw[->] (axis cs:0,0) -- (axis cs:1,2);" +:+ nl);
          AddLegendImage "line legend, draw=black"; AddLegendEntry "b"] ∧
  draw_patch (C:=with_draw_path (C:=collaborators)
                   (λ d _ _, ("", [], true, d)))
     data0 (arrow (Some ((0, 0), (1, 2))%float)) =
    demo_patch data0 (arrow (Some ((0, 0), (1, 2))%float)) ∧
  (demo_patch data0 (arrow None)).1 =
    OStr [Lit ("\path [draw=black,->] (axis cs:0,0) -- (axis cs:1,2);" +:+ nl);
          AddLegendImage "line legend, draw=black"; AddLegendEntry "b"].
Proof.
  split_and!.
  - edestruct (arrow_line_or_path (C:=collaborators) data0
                 (arrow (Some ((0, 0), (1, 2))%float)))
      as (Hline & _); [reflexivity..|].
    destruct (Hline (0, 0)%float (1, 2)%float eq_refl) as [-> _]. reflexivity.
  - edestruct (arrow_line_or_path (C:=collaborators) data0
                 (arrow (Some ((0, 0), (1, 2))%float)))
      as (Hline & _); [reflexivity..|].
    destruct (Hline (0, 0)%float (1, 2)%float eq_refl) as [_ Hsame].
    apply Hsame.
  - edestruct (arrow_line_or_path (C:=collaborators) data0 (arrow None))
      as (_ & Hpath); [reflexivity..|].
    erewrite Hpath; reflexivity.
Defined.


(** ** The further properties on the example figure *)

Lemma run_rectangle_legends_witness :
  rectangle_legends figure_result.2 =
  rectangle_legends data0 ∪ list_to_set (omap legend_candidate figure).
Proof.
  apply (run_rectangle_legends (H:=demo_frame) figure data0 figure_result.1
           figure_result.2).
  vm_compute; reflexivity.
Defined.

Lemma rectangle_entries_are_new_labels_witness :
  "a" ∈ rectangle_legend_entries figure figure_result.1 ↔
  "a" ∈ rectangle_legends figure_result.2 ∧ "a" ∉ rectangle_legends data0.
Proof.
  apply (rectangle_entries_are_new_labels (H:=demo_frame) figure data0
           figure_result.1 figure_result.2 "a").
  vm_compute; reflexivity.
Defined.

Lemma only_rectangles_write_legends_witness :
  rectangle_legends (demo_patch data0 (disc 3 "a")).2 =
  rectangle_legends data0.
Proof.
  apply (only_rectangles_write_legends (H:=demo_frame) data0
           (APatch (disc 3 "a")) (demo_patch data0 (disc 3 "a")).1
           (demo_patch data0 (disc 3 "a")).2); reflexivity.
Defined.

Lemma rectangle_redrawn_without_legend_witness :
  output_legend_entries (demo_patch after_between.2 bar1).1 = [].
Proof.
  apply (rectangle_redrawn_without_legend (H:=demo_frame) data0 bar1
           (box 0 1) between after_between.1 after_between.2).
  - reflexivity.
  - vm_compute; reflexivity.
Defined.

Lemma legend_pair_comes_last_witness :
  Forall (λ t, legend_pair_last t = true)
         (output_texts (demo_patch data0 bar1).1).
Proof.
  apply (legend_pair_comes_last (C:=collaborators) data0 (APatch bar1)
           (demo_patch data0 bar1).1 (demo_patch data0 bar1).2).
  reflexivity.
Defined.

Lemma legend_entry_per_artist_witness :
  length figure_result.1 = length figure ∧
  ∀ out, figure_result.1 !! 2 = Some out →
         output_legend_entries out =
         option_list (legend_label (APatch (disc 3 "b"))).
Proof.
  destruct (legend_entry_per_artist (C:=collaborators) figure data0
              figure_result.1 figure_result.2) as [Hlen Hentries].
  - vm_compute; reflexivity.
  - split; [exact Hlen|]. intros out Hout.
    apply (Hentries 2 (APatch (disc 3 "b")) out); [reflexivity | exact Hout |].
    reflexivity.
Defined.

Lemma collection_members_use_every_element_witness :
  ∃ m, m ∈ collection_members scatter ∧
       m_off m = Some (3%float, 3%float).
Proof.
  destruct (collection_members_use_every_element scatter)
    as (_ & _ & _ & _ & _ & _ & Hoff).
  apply Hoff. do 2 apply list_elem_of_further. apply list_elem_of_here.
Defined.

Lemma collection_members_equal_lengths_witness :
  length (collection_members aligned) = 2 ∧
  collection_members aligned !! 1 =
    Some {| m_path := coll_paths aligned !! 1;
            m_ec := coll_edgecolor aligned !! 1;
            m_fc := coll_facecolor aligned !! 1;
            m_ls := coll_linestyle aligned !! 1;
            m_w := coll_linewidth aligned !! 1;
            m_t := coll_transforms aligned !! 1;
            m_off := coll_offsets aligned !! 1 |}.
Proof.
  apply (collection_members_equal_lengths aligned 2 1);
    first [reflexivity | vm_compute; lia].
Defined.


Lemma recovered_label_owner_witness : recovered_label bar1 = "a".
Proof.
  destruct (recovered_label_owner bar1 [ {| get_children := [1; 2] |} ] ["a"]
              eq_refl) as [Howner _].
  apply (Howner 0 {| get_children := [1; 2] |} "a").
  - split_and!; [reflexivity | reflexivity |]. apply list_elem_of_here.
  - intros [|j] h' l' (Hh & _ & _); [reflexivity | discriminate].
Defined.

Lemma hello_lines_witness :
  Tmp.hello "world" (Some 3%Z) =
    ["3 Hello world"; "3 Hello world"; "3 Hello world"] ∧
  Tmp.hello "world" (Some (-2)%Z) = [].
Proof.
  destruct (hello_lines "world" (Some 3%Z)) as (Hthree & _ & _).
  destruct (hello_lines "world" (Some (-2)%Z)) as (_ & Hnone & _).
  split; [rewrite Hthree; reflexivity | apply Hnone; simpl; lia].
Defined.

(** The lines [print_tree] prints for a small figure. *)
Example print_tree_example :
  Helpers.print_tree tree "" =
  [" Figure"; "   Rectangle"; "   Axes";
   "     Text (" +:+ Helpers.quote +:+ "Taylor--Green Vortex" +:+
   Helpers.quote +:+ ")"].
Proof. reflexivity. Qed.


End Examples.
